(** * scikit-allel: genotype predicates and admixture statistics

    A shallow embedding of [allel/gt.py] (the predicates [is_called] and
    [is_missing]) and of [allel/stats/admixture.py] ([h_hat],
    [patterson_f2], [patterson_f3], [patterson_d], the blockwise wrapper
    and [jackknife]), followed by the properties of these functions.

    An allele-counts array has one of numpy's signed integer types, and
    arithmetic on its entries wraps around at the width of the type.
    Genotype arrays are only compared with zero, so their entries are
    plain integers.  Float arrays hold exact rationals, the two infinities
    and NaN (module [Float64]): the rounding is left out there, and where
    it decides, the arithmetic is IEEE 754 binary64 (module [Binary64]).
    A function that can raise returns a value of [result].
    Masked arrays are a data list and a mask list, and the loop of
    [jackknife] is written as state passing over them. *)

From Stdlib Require Import ZArith QArith Qcanon Lia Lqa SpecFloat.
From stdpp Require Import base list strings pretty.

Local Open Scope Z_scope.

(** * Numbers *)

(** Entries of numpy's [float64] arrays, without the rounding: a finite
    entry is an exact rational in canonical form.  The non-finite entries
    follow the IEEE 754 rules for infinities and NaN, which is what numpy's
    elementwise arithmetic does (a division by zero is no exception there).
    Signed zeros are identified.  What is proved over this type is about
    the operations a result is made of and about identities that do not
    depend on the rounding; where the rounding decides (the mean of the
    jackknife replicates against the mean of the series) module [Binary64]
    computes with the doubles themselves. *)
Module Float64.

Inductive float64 : Type :=
| Fin (q : Qc)
| PInf
| NInf
| NaN.

Definition sgn (q : Qc) : comparison := (q ?= 0)%Qc.

Definition inf_of (s : comparison) : float64 :=
  match s with
  | Gt => PInf
  | Lt => NInf
  | Eq => NaN
  end.

Definition of_Q (q : Q) : float64 := Fin (Q2Qc q).

(** Conversion of an integer entry, as [true_divide] and mixed arithmetic
    do on integer arrays. *)
Definition of_Z (z : Z) : float64 := of_Q (inject_Z z).

Definition fzero : float64 := of_Z 0.

Definition fneg (x : float64) : float64 :=
  match x with
  | Fin q => Fin (- q)%Qc
  | PInf => NInf
  | NInf => PInf
  | NaN => NaN
  end.

Definition fadd (x y : float64) : float64 :=
  match x, y with
  | NaN, _ | _, NaN => NaN
  | Fin p, Fin q => Fin (p + q)%Qc
  | PInf, NInf | NInf, PInf => NaN
  | PInf, _ | _, PInf => PInf
  | NInf, _ | _, NInf => NInf
  end.

Definition fsub (x y : float64) : float64 := fadd x (fneg y).

Definition fmul (x y : float64) : float64 :=
  match x, y with
  | NaN, _ | _, NaN => NaN
  | Fin p, Fin q => Fin (p * q)%Qc
  | Fin p, PInf | PInf, Fin p => inf_of (sgn p)
  | Fin p, NInf | NInf, Fin p => inf_of (CompOpp (sgn p))
  | PInf, PInf | NInf, NInf => PInf
  | PInf, NInf | NInf, PInf => NInf
  end.

Definition fdiv (x y : float64) : float64 :=
  match x, y with
  | NaN, _ | _, NaN => NaN
  | Fin p, Fin q =>
      if Qc_eq_bool q 0 then inf_of (sgn p) else Fin (p / q)%Qc
  | Fin _, (PInf | NInf) => fzero
  | PInf, Fin q => match sgn q with Lt => NInf | _ => PInf end
  | NInf, Fin q => match sgn q with Lt => PInf | _ => NInf end
  | (PInf | NInf), (PInf | NInf) => NaN
  end.

(** [x ** 2] *)
Definition fsquare (x : float64) : float64 := fmul x x.

Definition is_nan (x : float64) : bool :=
  match x with NaN => true | _ => false end.

Definition is_finite (x : float64) : Prop :=
  match x with Fin _ => True | _ => False end.

(** [np.sum] of a plain array. *)
Definition fsum (l : list float64) : float64 := foldr fadd fzero l.

(** [np.nansum]: NaN entries count as zero. *)
Definition nansum (l : list float64) : float64 :=
  fsum (map (fun x => if is_nan x then fzero else x) l).

(** [ndarray.mean]: the sum over the number of entries; 0/0 on an empty
    array. *)
Definition fmean (l : list float64) : float64 :=
  fdiv (fsum l) (of_Z (Z.of_nat (length l))).

End Float64.
Export Float64.

(** * Exceptions *)

(** The exceptions the two modules can raise.  A function that can raise
    returns [exception + A]. *)
Inductive exception : Type :=
| AssertionError (msg : string)
| ArgumentError (msg : string)
| DimensionMismatchError (msg : string)
| ValueError (msg : string)
| ZeroDivisionError
| IndexError.

Definition result (A : Type) : Type := exception + A.

Definition ret {A} (x : A) : result A := inr x.
Definition raise {A} (e : exception) : result A := inl e.

Definition bind {A B} (m : result A) (k : A -> result B) : result B :=
  match m with
  | inl e => inl e
  | inr x => k x
  end.

Declare Scope result_scope.
Delimit Scope result_scope with result.
Notation "'do' x <- m ; k" := (bind m (fun x => k))
  (at level 20, x pattern, m at level 100, k at level 200,
   only parsing, right associativity) : result_scope.
Notation "'do_' m ; k" := (bind m (fun _ => k))
  (at level 20, m at level 100, k at level 200,
   only parsing, right associativity) : result_scope.
Local Open Scope result_scope.

(** [assert cond, msg] (assertions enabled, as they are by default). *)
Definition assert_ (cond : bool) (msg : string) : result unit :=
  if cond then ret tt else raise (AssertionError msg).

(** * allel/gt.py *)

Module Gt.

(** A numpy array of up to three dimensions, as nested lists.  The length
    of the last axis of a 3-D array is kept apart ([shape2]): it is defined
    also when the array has no rows.  Arrays of four or more dimensions
    are only ever rejected, so their contents are left out. *)
Inductive ndarray (A : Type) : Type :=
| Nd0 (x : A)
| Nd1 (a : list A)
| Nd2 (a : list (list A))
| Nd3 (shape2 : nat) (a : list (list (list A)))
| NdHigher (extra : nat).
Arguments Nd0 {A} x.
Arguments Nd1 {A} a.
Arguments Nd2 {A} a.
Arguments Nd3 {A} shape2 a.
Arguments NdHigher {A} extra.

Definition ndim {A} (g : ndarray A) : nat :=
  match g with
  | Nd0 _ => 0
  | Nd1 _ => 1
  | Nd2 _ => 2
  | Nd3 _ _ => 3
  | NdHigher extra => 4 + extra
  end.

(** An elementwise operation, such as [g >= 0]. *)
Definition nd_map {A B} (f : A -> B) (g : ndarray A) : ndarray B :=
  match g with
  | Nd0 x => Nd0 (f x)
  | Nd1 a => Nd1 (map f a)
  | Nd2 a => Nd2 (map (map f) a)
  | Nd3 s a => Nd3 s (map (map (map f)) a)
  | NdHigher extra => NdHigher extra
  end.

(** An elementwise binary operation on two arrays of one shape. *)
Definition nd_zip_with {A B C} (f : A -> B -> C)
    (g : ndarray A) (h : ndarray B) : result (ndarray C) :=
  match g, h with
  | Nd0 x, Nd0 y => ret (Nd0 (f x y))
  | Nd1 a, Nd1 b => ret (Nd1 (zip_with f a b))
  | Nd2 a, Nd2 b => ret (Nd2 (zip_with (zip_with f) a b))
  | Nd3 s a, Nd3 _ b =>
      ret (Nd3 s (zip_with (zip_with (zip_with f)) a b))
  | _, _ => raise (ValueError "operands could not be broadcast together")
  end.

(** [g[..., k]]: index [k] of the last axis. *)
Definition last_axis_item (k : nat) (g : ndarray Z) : result (ndarray Z) :=
  match g with
  | Nd1 a => ret (Nd0 (nth k a 0))
  | Nd2 a => ret (Nd1 (map (fun r => nth k r 0) a))
  | Nd3 _ a => ret (Nd2 (map (map (fun c => nth k c 0)) a))
  | _ => raise IndexError
  end.

(** [np.all(b, axis=2)] and [np.any(b, axis=2)]. *)
Definition reduce_axis2 (f : list bool -> bool) (b : ndarray bool)
    : result (ndarray bool) :=
  match b with
  | Nd3 _ a => ret (Nd2 (map (map f) a))
  | _ => raise (ValueError "axis 2 is out of bounds")
  end.

Definition np_all_axis2 : ndarray bool -> result (ndarray bool) :=
  reduce_axis2 (forallb id).
Definition np_any_axis2 : ndarray bool -> result (ndarray bool) :=
  reduce_axis2 (existsb id).

Definition HAPLOID : nat := 1.
Definition DIPLOID : nat := 2.

Definition _check_genotype_array (g : ndarray Z)
    : result (ndarray Z * nat) :=
  match g with
  | Nd2 _ => ret (g, HAPLOID)
  | Nd3 ploidy a =>
      if (ploidy =? HAPLOID)%nat
      then ret (Nd2 (map (map (fun c => nth 0 c 0)) a), ploidy)
      else ret (g, ploidy)
  | _ =>
      raise (ArgumentError
               ("expected 2 or 3 dimensions, found " +:+ pretty (ndim g)))
  end.

Definition ge0 (z : Z) : bool := 0 <=? z.
Definition lt0 (z : Z) : bool := z <? 0.

Definition is_called (g : ndarray Z) : result (ndarray bool) :=
  do (g, ploidy) <- _check_genotype_array g;
  if (ploidy =? HAPLOID)%nat then
    ret (nd_map ge0 g)
  else if (ploidy =? DIPLOID)%nat then
    do allele1 <- last_axis_item 0 g;
    do allele2 <- last_axis_item 1 g;
    nd_zip_with andb (nd_map ge0 allele1) (nd_map ge0 allele2)
  else
    np_all_axis2 (nd_map ge0 g).

Definition is_missing (g : ndarray Z) : result (ndarray bool) :=
  do (g, ploidy) <- _check_genotype_array g;
  if (ploidy =? HAPLOID)%nat then
    ret (nd_map lt0 g)
  else if (ploidy =? DIPLOID)%nat then
    do allele1 <- last_axis_item 0 g;
    do allele2 <- last_axis_item 1 g;
    nd_zip_with orb (nd_map lt0 allele1) (nd_map lt0 allele2)
  else
    np_any_axis2 (nd_map lt0 g).

(** [np.ones(g.shape[:2], dtype=np.bool)] and [np.zeros(g.shape[:2],
    dtype=np.bool)]: an array of the first two dimensions of [g], every
    entry [b].  (An array of four or more dimensions does not get here.) *)
Definition np_full_shape2 (b : bool) (g : ndarray Z)
    : result (ndarray bool) :=
  match g with
  | Nd0 _ => ret (Nd0 b)
  | Nd1 a => ret (Nd1 (map (fun _ => b) a))
  | Nd2 a => ret (Nd2 (map (map (fun _ => b)) a))
  | Nd3 _ a => ret (Nd2 (map (map (fun _ => b)) a))
  | NdHigher _ => raise (ValueError "contents of the array are not kept")
  end.

(** [g[..., 0, None]] on a 3-D array: the first allele of every call, the
    last axis kept with length 1.  Index 0 is out of bounds when the last
    axis has length 0. *)
Definition first_allele (g : ndarray Z) : result (ndarray Z) :=
  match g with
  | Nd3 ploidy a =>
      if (0 <? ploidy)%nat
      then ret (Nd3 1 (map (map (fun c => [nth 0 c 0])) a))
      else raise IndexError
  | _ => raise IndexError
  end.

(** [g[..., 1:]] on a 3-D array: the alleles after the first. *)
Definition other_alleles_of (g : ndarray Z) : result (ndarray Z) :=
  match g with
  | Nd3 ploidy a => ret (Nd3 (ploidy - 1) (map (map (drop 1)) a))
  | _ => raise IndexError
  end.

(** An elementwise expression in [allele1], of length 1 along the last
    axis, and [other_alleles]: [allele1] is broadcast along the last
    axis. *)
Definition broadcast_last (f : Z -> Z -> bool) (allele1 others : ndarray Z)
    : result (ndarray bool) :=
  match allele1, others with
  | Nd3 _ a, Nd3 k b =>
      ret (Nd3 k (zip_with (zip_with (fun c1 c => map (f (nth 0 c1 0)) c))
                           a b))
  | _, _ => raise (ValueError "operands could not be broadcast together")
  end.

Definition gt0 (z : Z) : bool := 0 <? z.
Definition eq0 (z : Z) : bool := z =? 0.

Definition is_hom (g : ndarray Z) : result (ndarray bool) :=
  do (g, ploidy) <- _check_genotype_array g;
  if (ploidy =? HAPLOID)%nat then
    (* trivially true *)
    np_full_shape2 true g
  else if (ploidy =? DIPLOID)%nat then
    do allele1 <- last_axis_item 0 g;
    do allele2 <- last_axis_item 1 g;
    nd_zip_with (fun a1 a2 => ge0 a1 && (a1 =? a2)) allele1 allele2
  else
    do allele1 <- first_allele g;
    do other_alleles <- other_alleles_of g;
    do ex <- broadcast_last (fun a1 o => ge0 a1 && (a1 =? o))
               allele1 other_alleles;
    np_all_axis2 ex.

Definition is_het (g : ndarray Z) : result (ndarray bool) :=
  do (g, ploidy) <- _check_genotype_array g;
  if (ploidy =? HAPLOID)%nat then
    (* trivially false *)
    np_full_shape2 false g
  else if (ploidy =? DIPLOID)%nat then
    do allele1 <- last_axis_item 0 g;
    do allele2 <- last_axis_item 1 g;
    nd_zip_with (fun a1 a2 => ge0 a1 && ge0 a2 && negb (a1 =? a2))
      allele1 allele2
  else
    do allele1 <- first_allele g;
    do other_alleles <- other_alleles_of g;
    do all_called <- np_all_axis2 (nd_map ge0 g);
    do ne <- broadcast_last (fun a1 o => negb (a1 =? o))
               allele1 other_alleles;
    do any_differs <- np_any_axis2 ne;
    nd_zip_with andb all_called any_differs.

Definition is_hom_ref (g : ndarray Z) : result (ndarray bool) :=
  do (g, ploidy) <- _check_genotype_array g;
  if (ploidy =? HAPLOID)%nat then
    ret (nd_map eq0 g)
  else if (ploidy =? DIPLOID)%nat then
    do allele1 <- last_axis_item 0 g;
    do allele2 <- last_axis_item 1 g;
    nd_zip_with andb (nd_map eq0 allele1) (nd_map eq0 allele2)
  else
    np_all_axis2 (nd_map eq0 g).

Definition is_hom_alt (g : ndarray Z) : result (ndarray bool) :=
  do (g, ploidy) <- _check_genotype_array g;
  if (ploidy =? HAPLOID)%nat then
    ret (nd_map gt0 g)
  else if (ploidy =? DIPLOID)%nat then
    do allele1 <- last_axis_item 0 g;
    do allele2 <- last_axis_item 1 g;
    nd_zip_with (fun a1 a2 => gt0 a1 && (a1 =? a2)) allele1 allele2
  else
    do allele1 <- first_allele g;
    do other_alleles <- other_alleles_of g;
    do ex <- broadcast_last (fun a1 o => gt0 a1 && (a1 =? o))
               allele1 other_alleles;
    np_all_axis2 ex.

End Gt.

(** * allel/stats/admixture.py *)

Module Admixture.

(** The signed integer types of numpy arrays. *)
Inductive int_dtype : Type := int8 | int16 | int32 | int64.

Definition bits (dt : int_dtype) : Z :=
  match dt with
  | int8 => 8
  | int16 => 16
  | int32 => 32
  | int64 => 64
  end.

Definition min_int (dt : int_dtype) : Z := - 2 ^ (bits dt - 1).
Definition max_int (dt : int_dtype) : Z := 2 ^ (bits dt - 1) - 1.

(** The result of an arithmetic operation in the type [dt]: the exact
    result [z] wrapped around (two's complement). *)
Definition wrap (dt : int_dtype) (z : Z) : Z :=
  (z - min_int dt) mod 2 ^ bits dt + min_int dt.

(** [np.int_], the type in which numpy sums an array of a signed integer
    type that is not wider: 64 bits (as on Linux and macOS, and on every
    platform since numpy 2). *)
Definition int_ : int_dtype := int64.

(** A 2-D integer array: its type, [shape1] columns and the rows as
    lists.  In an array every row has [shape1] entries ([rectangular]). *)
Record array2 : Type := Array2 {
  dtype : int_dtype;
  shape1 : nat;
  rows : list (list Z)
}.

Definition shape0 (ac : array2) : nat := length (rows ac).

Definition rectangular (ac : array2) : Prop :=
  Forall (fun r => length r = shape1 ac) (rows ac).

(** [ac[:, k]] *)
Definition col (k : nat) (ac : array2) : list Z :=
  map (fun r => nth k r 0) (rows ac).

Definition row_sum (r : list Z) : Z := foldr Z.add 0 r.

(** [ac.sum(axis=1)]: the sum is taken in [np.int_]. *)
Definition sum_axis1 (ac : array2) : list Z :=
  map (fun r => wrap int_ (row_sum r)) (rows ac).

(** Modelled from the spec: [allel.util.asarray_ndim], which converts its
    argument to an array of the requested dimensionality or fails with a
    descriptive argument error.  The argument here is a 2-D array
    already. *)
Definition asarray_ndim (a : array2) (ndim : nat) : result array2 :=
  if (ndim =? 2)%nat then ret a
  else raise (ArgumentError "array has the wrong number of dimensions").

(** Modelled from the spec: the constructor of
    [allel.model.AlleleCountsArray], the allele-counts array type; with
    [copy=False] it wraps the 2-D array it is given. *)
Definition AlleleCountsArray (a : array2) : result array2 := ret a.

(** Modelled from the spec: [AlleleCountsArray.to_frequencies], the
    conversion of counts to fractions by row. *)
Definition to_frequencies (ac : array2) : list (list float64) :=
  map (fun r => map (fun c => fdiv (of_Z c) (of_Z (row_sum r))) r) (rows ac).

(** [f[:, k]] on a 2-D float array. *)
Definition fcol (k : nat) (f : list (list float64)) : list float64 :=
  map (fun r => nth k r NaN) f.

(** Modelled from the spec: [allel.util.check_dim0_aligned], which asserts
    that the arrays share the length of their first dimension and fails
    with a dimension-mismatch error otherwise. *)
Definition check_dim0_aligned (arrays : list array2) : result unit :=
  match arrays with
  | [] => ret tt
  | a :: others =>
      if forallb (fun b => (shape0 b =? shape0 a)%nat) others then ret tt
      else raise (DimensionMismatchError
                    "arrays do not have matching length for first dimension")
  end.

(** Modelled from the spec: [allel.stats.window.moving_statistic], which
    applies [statistic] to each non-overlapping contiguous block of [size]
    entries; an incomplete last block is dropped. *)
Definition moving_statistic (values : list float64)
    (statistic : list float64 -> float64) (size : nat) : list float64 :=
  map (fun k => statistic (take size (drop (k * size) values)))
      (seq 0 (length values / size)).

Definition biallelic_msg : string := "only biallelic variants supported".

(** Elementwise arithmetic on 1-D arrays of one length: the product of two
    integer arrays of type [dt] and an integer array minus a Python
    integer, both in the type of the array, and the true division, which
    gives floats. *)
Definition int_mul (dt : int_dtype) (x y : list Z) : list Z :=
  zip_with (fun p q => wrap dt (p * q)) x y.
Definition int_sub_scalar (dt : int_dtype) (x : list Z) (k : Z) : list Z :=
  map (fun p => wrap dt (p - k)) x.
Definition int_div (x y : list Z) : list float64 :=
  zip_with (fun p q => fdiv (of_Z p) (of_Z q)) x y.
Definition float_int_div (x : list float64) (y : list Z) : list float64 :=
  zip_with (fun p q => fdiv p (of_Z q)) x y.

Definition h_hat (ac : array2) : result (list float64) :=
  (* check inputs *)
  do ac <- asarray_ndim ac 2;
  do_ assert_ (shape1 ac =? 2)%nat biallelic_msg;
  (* compute allele number *)
  let an := sum_axis1 ac in
  (* compute estimator *)
  let x := int_div (int_mul (dtype ac) (col 0 ac) (col 1 ac))
                   (int_mul int_ an (int_sub_scalar int_ an 1)) in
  ret x.

Definition patterson_f2 (aca acb : array2) : result (list float64) :=
  (* check inputs *)
  do aca <- AlleleCountsArray aca;
  do_ assert_ (shape1 aca =? 2)%nat biallelic_msg;
  do acb <- AlleleCountsArray acb;
  do_ assert_ (shape1 acb =? 2)%nat biallelic_msg;
  do_ check_dim0_aligned [aca; acb];
  (* compute allele numbers *)
  let sa := sum_axis1 aca in
  let sb := sum_axis1 acb in
  (* compute heterozygosities *)
  do ha <- h_hat aca;
  do hb <- h_hat acb;
  (* compute sample frequencies for the alternate allele *)
  let a := fcol 1 (to_frequencies aca) in
  let b := fcol 1 (to_frequencies acb) in
  (* compute estimator *)
  let x := zip_with fsub
             (zip_with fsub (map fsquare (zip_with fsub a b))
                            (float_int_div ha sa))
             (float_int_div hb sb) in
  ret x.

Definition patterson_f3 (acc aca acb : array2)
    : result (list float64 * list float64) :=
  (* check inputs *)
  do aca <- AlleleCountsArray aca;
  do_ assert_ (shape1 aca =? 2)%nat biallelic_msg;
  do acb <- AlleleCountsArray acb;
  do_ assert_ (shape1 acb =? 2)%nat biallelic_msg;
  do acc <- AlleleCountsArray acc;
  do_ assert_ (shape1 acc =? 2)%nat biallelic_msg;
  do_ check_dim0_aligned [aca; acb; acc];
  (* compute allele number and heterozygosity in test population *)
  let sc := sum_axis1 acc in
  do hc <- h_hat acc;
  (* compute sample frequencies for the alternate allele *)
  let a := fcol 1 (to_frequencies aca) in
  let b := fcol 1 (to_frequencies acb) in
  let c := fcol 1 (to_frequencies acc) in
  (* compute estimator *)
  let T := zip_with fsub
             (zip_with fmul (zip_with fsub c a) (zip_with fsub c b))
             (float_int_div hc sc) in
  let B := map (fmul (of_Z 2)) hc in
  ret (T, B).

Definition patterson_d (aca acb acc acd : array2)
    : result (list float64 * list float64) :=
  (* check inputs *)
  do aca <- AlleleCountsArray aca;
  do_ assert_ (shape1 aca =? 2)%nat biallelic_msg;
  do acb <- AlleleCountsArray acb;
  do_ assert_ (shape1 acb =? 2)%nat biallelic_msg;
  do acc <- AlleleCountsArray acc;
  do_ assert_ (shape1 acc =? 2)%nat biallelic_msg;
  do acd <- AlleleCountsArray acd;
  do_ assert_ (shape1 acd =? 2)%nat biallelic_msg;
  do_ check_dim0_aligned [aca; acb; acc; acd];
  (* compute sample frequencies for the alternate allele *)
  let a := fcol 1 (to_frequencies aca) in
  let b := fcol 1 (to_frequencies acb) in
  let c := fcol 1 (to_frequencies acc) in
  let d := fcol 1 (to_frequencies acd) in
  (* compute estimator *)
  let num := zip_with fmul (zip_with fsub a b) (zip_with fsub c d) in
  let den :=
    zip_with fmul
      (zip_with fsub (zip_with fadd a b)
                     (zip_with fmul (map (fmul (of_Z 2)) a) b))
      (zip_with fsub (zip_with fadd c d)
                     (zip_with fmul (map (fmul (of_Z 2)) c) d)) in
  ret (num, den).

(** ** The jackknife *)

(** A numpy masked array: the data and, aside, one flag per entry; a set
    flag excludes the entry.  [np.ma.asarray] does not copy the data. *)
Record masked_array : Type := MaskedArray {
  data : list float64;
  mask : list bool
}.

(** [np.ma.asarray(v)] followed by [.mask = np.zeros(v.shape, dtype=bool)] *)
Definition ma_asarray (v : list float64) : masked_array :=
  {| data := v; mask := replicate (length v) false |}.

(** [m.mask[i] = b]; an index past the end raises. *)
Definition set_mask (i : nat) (b : bool) (m : masked_array)
    : result masked_array :=
  if (i <? length (mask m))%nat
  then ret {| data := data m; mask := <[i := b]> (mask m) |}
  else raise IndexError.

(** [for m in masked_values: m.mask[i] = b] *)
Fixpoint set_masks (i : nat) (b : bool) (ms : list masked_array)
    : result (list masked_array) :=
  match ms with
  | [] => ret []
  | m :: rest =>
      do m' <- set_mask i b m;
      do rest' <- set_masks i b rest;
      ret (m' :: rest')
  end.

(** [m.filled(0)]: the data with zero at the excluded entries. *)
Definition filled0 (m : masked_array) : list float64 :=
  zip_with (fun x (b : bool) => if b then fzero else x) (data m) (mask m).

(** [m.count()]: the number of entries that are not excluded. *)
Definition ma_count (m : masked_array) : nat :=
  length (filter (fun b => b = false) (mask m)).

(** [np.sum] of a masked array: the sum of the entries that are not
    excluded.  With every entry excluded the result is the masked constant,
    which a float array stores as nan. *)
Definition ma_sum (m : masked_array) : float64 :=
  if (ma_count m =? 0)%nat then NaN else fsum (filled0 m).

(** [np.mean] of a masked array. *)
Definition ma_mean (m : masked_array) : float64 :=
  if (ma_count m =? 0)%nat then NaN
  else fdiv (fsum (filled0 m)) (of_Z (Z.of_nat (ma_count m))).

(** The first argument of [jackknife]: one array, or a tuple of arrays. *)
Inductive jk_values : Type :=
| Single (values : list float64)
| Tuple (values : list (list float64)).

(** The second argument: a function of one masked array per series, to a
    scalar. *)
Definition jk_statistic : Type := list masked_array -> float64.

(** [a / b] on Python integers (true division). *)
Definition py_truediv (a b : Z) : result float64 :=
  if b =? 0 then raise ZeroDivisionError else ret (fdiv (of_Z a) (of_Z b)).

(** The state of the loop of [jackknife]: the masked arrays and the
    replicates collected so far. *)
Definition jk_state : Type := (list masked_array * list float64)%type.

(** The first lines of [jackknife]: the number of iterations and the
    masked arrays, no entry excluded. *)
Definition jackknife_init (values : jk_values)
    : result (nat * list masked_array) :=
  match values with
  | Tuple vs =>
      match vs with
      | [] => raise IndexError
      | v0 :: _ => ret (length v0, map ma_asarray vs)
      end
  | Single v => ret (length v, [ma_asarray v])
  end.

(** One iteration of the loop. *)
Definition jackknife_step (statistic : jk_statistic) (i : nat)
    (st : jk_state) : result jk_state :=
  let (masked_values, vj) := st in
  do masked_values <- set_masks i true masked_values;
  let x := statistic masked_values in
  do masked_values <- set_masks i false masked_values;
  ret (masked_values, vj ++ [x]).

(** [for i in range(n)], the indices given as a list. *)
Fixpoint jackknife_loop (statistic : jk_statistic) (range : list nat)
    (st : jk_state) : result jk_state :=
  match range with
  | [] => ret st
  | i :: range' =>
      do st' <- jackknife_step statistic i st;
      jackknife_loop statistic range' st'
  end.

(** [jackknife] up to the end of its loop, with the masked arrays in the
    result. *)
Definition jackknife_run (values : jk_values) (statistic : jk_statistic)
    : result (nat * jk_state) :=
  do (n, masked_values) <- jackknife_init values;
  do st <- jackknife_loop statistic (seq 0 n) (masked_values, []);
  ret (n, st).

Section Jackknife.

(** [np.sqrt], which the development is parametric in. *)
Variable sqrt : float64 -> float64.

Definition jackknife (values : jk_values) (statistic : jk_statistic)
    : result (float64 * float64 * list float64) :=
  do (n, st) <- jackknife_run values statistic;
  let vj := snd st in
  let m := fmean vj in
  do c <- py_truediv (Z.of_nat n - 1) (Z.of_nat n);
  let sv := fmul c (fsum (map (fun x => fsquare (fsub x m)) vj)) in
  let se := sqrt sv in
  ret (m, se, vj).

(** [lambda n, d: np.sum(n) / np.sum(d)], which [blockwise_patterson_d]
    passes with the two series of block sums; it is not called on another
    number of arrays. *)
Definition ratio_of_sums : jk_statistic :=
  fun ms =>
    match ms with
    | [n; d] => fdiv (ma_sum n) (ma_sum d)
    | _ => NaN
    end.

Definition blockwise_patterson_d (aca acb acc acd : array2) (blen : nat)
    : result (float64 * float64 * float64 * list float64 * list float64) :=
  (* calculate per-variant values *)
  do (num, den) <- patterson_d aca acb acc acd;
  let num_bsum := moving_statistic num nansum blen in
  let den_bsum := moving_statistic den nansum blen in
  let vb := zip_with fdiv num_bsum den_bsum in
  do (m, se, vj) <- jackknife (Tuple [num_bsum; den_bsum]) ratio_of_sums;
  let z := fdiv m se in
  ret (m, se, z, vb, vj).

End Jackknife.

End Admixture.

(** * The formulas of the specification *)

(** What the specification says each function returns, per variant (a row
    of an allele-counts array) or per replicate; the theorems below
    compare the functions above with these. *)
Module Spec.
Import Admixture.

(** An allele-counts array of the biallelic functions: two columns. *)
Definition biallelic (ac : array2) : Prop :=
  shape1 ac = 2%nat /\ rectangular ac.

(** All counts are non-negative. *)
Definition nonneg (ac : array2) : Prop :=
  Forall (Forall (fun c => 0 <= c)) (rows ac).

Definition ref (r : list Z) : Z := nth 0 r 0.
Definition alt (r : list Z) : Z := nth 1 r 0.

(** [an = ref + alt] *)
Definition allele_number (r : list Z) : Z := ref r + alt r.

(** [(ref * alt) / (an * (an - 1))] *)
Definition spec_h (r : list Z) : float64 :=
  let an := allele_number r in
  fdiv (of_Z (ref r * alt r)) (of_Z (an * (an - 1))).

(** The alternate-allele frequency. *)
Definition spec_freq (r : list Z) : float64 :=
  fdiv (of_Z (alt r)) (of_Z (allele_number r)).

(** The allele number [sX] of a row as [sum(axis=1)] has it: in
    [np.int_], which holds [ref + alt] unless that takes more than 64
    bits. *)
Definition spec_s (r : list Z) : Z := wrap int_ (allele_number r).

(** [hX / sX], for the entry [h] of [h_hat] at the row. *)
Definition spec_h_over_s (h : float64) (r : list Z) : float64 :=
  fdiv h (of_Z (spec_s r)).

(** [(freqA - freqB)^2 - hA/sA - hB/sB], with [hA] and [hB] the entries of
    [h_hat] at the two rows. *)
Definition spec_f2 (ra rb : list Z) (hA hB : float64) : float64 :=
  fsub (fsub (fsquare (fsub (spec_freq ra) (spec_freq rb)))
             (spec_h_over_s hA ra))
       (spec_h_over_s hB rb).

(** [T = (c - a) * (c - b) - hC/sC], with [hC] the entry of [h_hat]. *)
Definition spec_f3_T (rc ra rb : list Z) (hC : float64) : float64 :=
  fsub (fmul (fsub (spec_freq rc) (spec_freq ra))
             (fsub (spec_freq rc) (spec_freq rb)))
       (spec_h_over_s hC rc).

(** [B_out = 2 * hC] *)
Definition spec_f3_B (hC : float64) : float64 := fmul (of_Z 2) hC.

(** [num = (a - b) * (c - d)] *)
Definition spec_d_num (ra rb rc rd : list Z) : float64 :=
  fmul (fsub (spec_freq ra) (spec_freq rb))
       (fsub (spec_freq rc) (spec_freq rd)).

(** [den = (a + b - 2ab) * (c + d - 2cd)] *)
Definition spec_d_den (ra rb rc rd : list Z) : float64 :=
  let a := spec_freq ra in
  let b := spec_freq rb in
  let c := spec_freq rc in
  let d := spec_freq rd in
  fmul (fsub (fadd a b) (fmul (fmul (of_Z 2) a) b))
       (fsub (fadd c d) (fmul (fmul (of_Z 2) c) d)).

(** The series of a [jackknife] input, and what it is for them to have
    one length [n]. *)
Definition series (values : jk_values) : list (list float64) :=
  match values with
  | Single v => [v]
  | Tuple vs => vs
  end.

Definition equal_length (values : jk_values) (n : nat) : Prop :=
  series values <> [] /\ Forall (fun v => length v = n) (series values).

(** The series [v] with entry [i] excluded and no other. *)
Definition exclude (i : nat) (v : list float64) : masked_array :=
  {| data := v; mask := <[i := true]> (replicate (length v) false) |}.

(** [np.mean] as the statistic of a single series. *)
Definition np_mean : jk_statistic :=
  fun ms =>
    match ms with
    | [m] => ma_mean m
    | _ => NaN
    end.

(** [se = sqrt(((n - 1) / n) * sum((vj_i - m)^2))] *)
Definition spec_se (sqrt : float64 -> float64) (n : nat) (m : float64)
    (vj : list float64) : float64 :=
  sqrt (fmul (fdiv (of_Z (Z.of_nat n - 1)) (of_Z (Z.of_nat n)))
             (fsum (map (fun x => fsquare (fsub x m)) vj))).

(** Block [k] of [blen] consecutive entries. *)
Definition block (blen k : nat) (l : list float64) : list float64 :=
  take blen (drop (k * blen) l).

(** A genotype array: two dimensions (haploid) or three. *)
Definition genotype_array (g : Gt.ndarray Z) : Prop :=
  Gt.ndim g = 2%nat \/ Gt.ndim g = 3%nat.

End Spec.

(** * allel/stats/admixture.py, continued *)

(** [blockwise_patterson_f3], which uses [np.mean] and [np.nanmean]. *)
Module AdmixtureF3.
Import Admixture.

(** [np.nanmean]: the NaN entries are left out of the sum and of the
    count; 0/0 when no entry is left. *)
Definition nanmean (l : list float64) : float64 :=
  fdiv (nansum l)
       (of_Z (Z.of_nat (length (filter (fun x => is_nan x = false) l)))).

Section BlockwiseF3.

(** [np.sqrt] *)
Variable sqrt : float64 -> float64.

Definition blockwise_patterson_f3 (acc aca acb : array2) (blen : nat)
    (normed : bool)
    : result (float64 * float64 * float64 * list float64 * list float64) :=
  (* calculate per-variant values *)
  do (T, B) <- patterson_f3 acc aca acb;
  do (m, se, vb, vj) <-
    (if normed then
       let T_bsum := moving_statistic T nansum blen in
       let B_bsum := moving_statistic B nansum blen in
       let vb := zip_with fdiv T_bsum B_bsum in
       do (m, se, vj) <- jackknife sqrt (Tuple [T_bsum; B_bsum])
                           ratio_of_sums;
       ret (m, se, vb, vj)
     else
       let vb := moving_statistic T nanmean blen in
       do (m, se, vj) <- jackknife sqrt (Single vb) Spec.np_mean;
       ret (m, se, vb, vj));
  let z := fdiv m se in
  ret (m, se, z, vb, vj).

End BlockwiseF3.

End AdmixtureF3.

(** * IEEE 754 binary64 *)

(** numpy's [float64] with its rounding: the binary64 format of IEEE 754 as
    module [SpecFloat] of the standard library defines it, with 53 bits of
    precision, exponents up to 1024 and rounding to the nearest, ties to
    even. *)
Module Binary64.

Definition prec : Z := 53.
Definition emax : Z := 1024.

Definition binary64 : Type := spec_float.

(** The conversion of an integer. *)
Definition b64_of_Z (z : Z) : binary64 := binary_normalize prec emax z 0 false.

Definition b64_nan : binary64 := S754_nan.
Definition b64_add : binary64 -> binary64 -> binary64 := SFadd prec emax.
Definition b64_sub : binary64 -> binary64 -> binary64 := SFsub prec emax.
Definition b64_mul : binary64 -> binary64 -> binary64 := SFmul prec emax.
Definition b64_div : binary64 -> binary64 -> binary64 := SFdiv prec emax.
Definition b64_sqrt : binary64 -> binary64 := SFsqrt prec emax.

(** The sum of the entries of an array, from the last entry or from the
    first.  numpy adds the entries of a short array one by one; the facts
    below hold for either direction. *)
Definition sum_from_last (l : list binary64) : binary64 :=
  foldr b64_add (b64_of_Z 0) l.
Definition sum_from_first (l : list binary64) : binary64 :=
  foldl b64_add (b64_of_Z 0) l.

End Binary64.

(** * The arithmetic of float arrays, as an interface *)

(** The operations on floats that [jackknife] and [np.mean] use.  Module
    [Float64] gives them without rounding, module [Binary64] as numpy
    computes them. *)
Record float_ops (F : Type) : Type := FloatOps {
  op_of_Z : Z -> F;
  op_nan : F;
  op_add : F -> F -> F;
  op_sub : F -> F -> F;
  op_mul : F -> F -> F;
  op_div : F -> F -> F;
  op_sqrt : F -> F;
  op_sum : list F -> F
}.
Arguments FloatOps {F}.
Arguments op_of_Z {F}.
Arguments op_nan {F}.
Arguments op_add {F}.
Arguments op_sub {F}.
Arguments op_mul {F}.
Arguments op_div {F}.
Arguments op_sqrt {F}.
Arguments op_sum {F}.

Definition exact_ops (sqrt : float64 -> float64) : float_ops float64 :=
  FloatOps of_Z NaN fadd fsub fmul fdiv sqrt fsum.

Definition binary64_ops (sum : list Binary64.binary64 -> Binary64.binary64)
    : float_ops Binary64.binary64 :=
  FloatOps Binary64.b64_of_Z Binary64.b64_nan Binary64.b64_add
    Binary64.b64_sub Binary64.b64_mul Binary64.b64_div Binary64.b64_sqrt sum.

(** * The jackknife over an arithmetic *)

(** [jackknife] and [np.mean] of module [Admixture] once more, with the
    arithmetic of the floats as a parameter, so that the same program runs
    without rounding and in binary64.  Without rounding it is the
    [jackknife] of module [Admixture] (lemma [jackknife_generic_exact]
    below). *)
Module Generic.

Record masked_array (F : Type) : Type := MaskedArray {
  data : list F;
  mask : list bool
}.
Arguments MaskedArray {F}.
Arguments data {F}.
Arguments mask {F}.

Inductive jk_values (F : Type) : Type :=
| Single (values : list F)
| Tuple (values : list (list F)).
Arguments Single {F}.
Arguments Tuple {F}.

Definition jk_statistic (F : Type) : Type := list (masked_array F) -> F.

Definition jk_state (F : Type) : Type :=
  (list (masked_array F) * list F)%type.

Section Over.
Context {F : Type} (ops : float_ops F).

(** [np.ma.asarray(v)] followed by [.mask = np.zeros(v.shape, dtype=bool)] *)
Definition ma_asarray (v : list F) : masked_array F :=
  {| data := v; mask := replicate (length v) false |}.

(** [m.mask[i] = b]; an index past the end raises. *)
Definition set_mask (i : nat) (b : bool) (m : masked_array F)
    : result (masked_array F) :=
  if (i <? length (mask m))%nat
  then ret {| data := data m; mask := <[i := b]> (mask m) |}
  else raise IndexError.

(** [for m in masked_values: m.mask[i] = b] *)
Fixpoint set_masks (i : nat) (b : bool) (ms : list (masked_array F))
    : result (list (masked_array F)) :=
  match ms with
  | [] => ret []
  | m :: rest =>
      do m' <- set_mask i b m;
      do rest' <- set_masks i b rest;
      ret (m' :: rest')
  end.

(** [m.filled(0)] *)
Definition filled0 (m : masked_array F) : list F :=
  zip_with (fun x (b : bool) => if b then op_of_Z ops 0 else x)
    (data m) (mask m).

(** [m.count()] *)
Definition ma_count (m : masked_array F) : nat :=
  length (filter (fun b => b = false) (mask m)).

(** [np.mean] of a masked array: the sum of the array filled with zeros
    over the number of entries that are not excluded. *)
Definition ma_mean (m : masked_array F) : F :=
  if (ma_count m =? 0)%nat then op_nan ops
  else op_div ops (op_sum ops (filled0 m))
                  (op_of_Z ops (Z.of_nat (ma_count m))).

(** [np.mean] as the statistic of a single series. *)
Definition np_mean : jk_statistic F :=
  fun ms =>
    match ms with
    | [m] => ma_mean m
    | _ => op_nan ops
    end.

(** [ndarray.mean] *)
Definition mean (l : list F) : F :=
  op_div ops (op_sum ops l) (op_of_Z ops (Z.of_nat (length l))).

(** [a / b] on Python integers (true division). *)
Definition py_truediv (a b : Z) : result F :=
  if b =? 0 then raise ZeroDivisionError
  else ret (op_div ops (op_of_Z ops a) (op_of_Z ops b)).

Definition jackknife_init (values : jk_values F)
    : result (nat * list (masked_array F)) :=
  match values with
  | Tuple vs =>
      match vs with
      | [] => raise IndexError
      | v0 :: _ => ret (length v0, map ma_asarray vs)
      end
  | Single v => ret (length v, [ma_asarray v])
  end.

Definition jackknife_step (statistic : jk_statistic F) (i : nat)
    (st : jk_state F) : result (jk_state F) :=
  let (masked_values, vj) := st in
  do masked_values <- set_masks i true masked_values;
  let x := statistic masked_values in
  do masked_values <- set_masks i false masked_values;
  ret (masked_values, vj ++ [x]).

Fixpoint jackknife_loop (statistic : jk_statistic F) (range : list nat)
    (st : jk_state F) : result (jk_state F) :=
  match range with
  | [] => ret st
  | i :: range' =>
      do st' <- jackknife_step statistic i st;
      jackknife_loop statistic range' st'
  end.

Definition jackknife (values : jk_values F) (statistic : jk_statistic F)
    : result (F * F * list F) :=
  do (n, masked_values) <- jackknife_init values;
  do st <- jackknife_loop statistic (seq 0 n) (masked_values, []);
  let vj := snd st in
  let m := mean vj in
  do c <- py_truediv (Z.of_nat n - 1) (Z.of_nat n);
  let sv :=
    op_mul ops c
      (op_sum ops (map (fun x => op_mul ops (op_sub ops x m)
                                            (op_sub ops x m)) vj)) in
  let se := op_sqrt ops sv in
  ret (m, se, vj).

(** The series of an input, what it is for them to have one length, a
    series with entry [i] excluded and no other, and the standard error
    [sqrt(((n - 1) / n) * sum((vj_i - m)^2))]. *)
Definition series (values : jk_values F) : list (list F) :=
  match values with
  | Single v => [v]
  | Tuple vs => vs
  end.

Definition equal_length (values : jk_values F) (n : nat) : Prop :=
  series values <> [] /\ Forall (fun v => length v = n) (series values).

Definition exclude (i : nat) (v : list F) : masked_array F :=
  {| data := v; mask := <[i := true]> (replicate (length v) false) |}.

Definition spec_se (n : nat) (m : F) (vj : list F) : F :=
  op_sqrt ops
    (op_mul ops
       (op_div ops (op_of_Z ops (Z.of_nat n - 1)) (op_of_Z ops (Z.of_nat n)))
       (op_sum ops (map (fun x => op_mul ops (op_sub ops x m)
                                             (op_sub ops x m)) vj))).

End Over.

End Generic.

(** * The entries of [h_hat] *)

Module MoreSpec.
Import Admixture Spec.

(** The entry of [h_hat] at a row of an array of type [dt]: the formula
    [(ref * alt) / (an * (an - 1))] with the product of the counts taken
    in [dt] and the allele number, its predecessor and their product in
    [np.int_]. *)
Definition h_row (dt : int_dtype) (r : list Z) : float64 :=
  let an := spec_s r in
  fdiv (of_Z (wrap dt (ref r * alt r)))
       (of_Z (wrap int_ (an * wrap int_ (an - 1)))).

(** The products of [h_hat] at a row fit the integer types they are taken
    in. *)
Definition products_fit (dt : int_dtype) (r : list Z) : Prop :=
  ref r * alt r <= max_int dt /\
  allele_number r * (allele_number r - 1) <= max_int int_.

End MoreSpec.

(** * Auxiliary notions of the proofs *)

Module Aux.
(** The sum of rationals, and the integer [z] as a rational. *)
Definition Qcsum (qs : list Qc) : Qc := foldr Qcplus 0%Qc qs.
Definition QcZ (z : Z) : Qc := Q2Qc (inject_Z z).

(** The kind of an entry: finite, either infinity, or NaN.  Under addition
    the kinds form a lattice, with [KFin] at the bottom and [KNaN] at the
    top. *)
Inductive kind : Type := KFin | KPInf | KNInf | KNaN.

Definition kind_of (x : float64) : kind :=
  match x with
  | Fin _ => KFin
  | PInf => KPInf
  | NInf => KNInf
  | NaN => KNaN
  end.

Definition join (a b : kind) : kind :=
  match a, b with
  | KFin, c | c, KFin => c
  | KPInf, KPInf => KPInf
  | KNInf, KNInf => KNInf
  | _, _ => KNaN
  end.

Definition joins (l : list kind) : kind := foldr join KFin l.

Definition kle (a b : kind) : Prop := join a b = b.
End Aux.

(** * Shapes of genotype arrays *)

Module GtShape.
Import Gt.

(** The ploidy [_check_genotype_array] finds: 1 for a 2-D array, the length
    of the last axis for a 3-D array. *)
Definition ploidy_of (g : ndarray Z) : nat :=
  match g with
  | Nd3 ploidy _ => ploidy
  | _ => 1%nat
  end.

(** In a 3-D array every call has as many alleles as the last axis is
    long. *)
Definition well_shaped (g : ndarray Z) : Prop :=
  match g with
  | Nd3 ploidy a => Forall (Forall (fun c => length c = ploidy)) a
  | _ => True
  end.

(** The number of samples of each variant (row) of an array of two or
    three dimensions. *)
Definition samples {A} (g : ndarray A) : list nat :=
  match g with
  | Nd2 a => map length a
  | Nd3 _ a => map length a
  | _ => []
  end.

End GtShape.

(** * Example inputs *)

Module Examples.
Import Admixture.

Definition three_columns : array2 := Array2 int64 3 [[1; 2; 3]].
Definition pop1 : array2 := Array2 int64 2 [[3; 1]].
Definition pop2 : array2 := Array2 int64 2 [[1; 3]].
Definition pop3 : array2 := Array2 int64 2 [[2; 2]].
Definition pop4 : array2 := Array2 int64 2 [[0; 4]].
Definition two_variants : array2 := Array2 int64 2 [[3; 1]; [1; 1]].
Definition no_variants : array2 := Array2 int64 2 [].

Definition series4 : list float64 := map of_Z [1; 2; 3; 6].
Definition sqrt_id : float64 -> float64 := fun x => x.
Definition series2 : list float64 := map of_Z [5; 7].
Definition series6 : list float64 := map of_Z [1; 2; 3; 6; 0; 4].
Definition series4b : list float64 := map of_Z [2; 4; 4; 8].
Definition blocks_a : array2 :=
  Array2 int64 2 [[3; 1]; [1; 1]; [0; 0]; [2; 2]].
Definition blocks_b : array2 :=
  Array2 int64 2 [[1; 3]; [1; 2]; [1; 1]; [2; 2]].
Definition blocks_c : array2 :=
  Array2 int64 2 [[2; 1]; [1; 1]; [1; 0]; [2; 2]].
Definition blocks_d : array2 :=
  Array2 int64 2 [[0; 1]; [1; 1]; [0; 1]; [2; 5]].
(** Counts of a large sample, as 32-bit integers. *)
Definition large_counts : array2 := Array2 int32 2 [[50000; 50000]].

(** The series [0.5, 0.2, 1.0] in binary64, and the doubles
    0.5666666666666668 and 0.5666666666666667. *)
Definition series3 : list Binary64.binary64 :=
  [Binary64.b64_div (Binary64.b64_of_Z 1) (Binary64.b64_of_Z 2);
   Binary64.b64_div (Binary64.b64_of_Z 1) (Binary64.b64_of_Z 5);
   Binary64.b64_of_Z 1].
Definition m_series3 : Binary64.binary64 :=
  S754_finite false 5104079577686563 (-53).
Definition mean_series3 : Binary64.binary64 :=
  S754_finite false 5104079577686562 (-53).

(** The array of the docstrings of [is_called] and [is_missing]. *)
Definition docstring_g : Gt.ndarray Z :=
  Gt.Nd3 2 [[[0; 0]; [0; 1]]; [[0; 1]; [1; 1]]; [[0; 2]; [-1; -1]]].

(** The array of the docstrings of [is_hom_ref] and [is_hom_alt], the
    triploid and the haploid array of the module docstring, an array with
    no allele per call and a 1-D array. *)
Definition docstring_g2 : Gt.ndarray Z :=
  Gt.Nd3 2 [[[0; 0]; [0; 1]]; [[0; 1]; [1; 1]]; [[2; 2]; [-1; -1]]].
Definition g_triploid : Gt.ndarray Z :=
  Gt.Nd3 3 [[[0; 0; 0]; [0; 0; 1]]; [[0; 1; 1]; [1; 1; 1]];
            [[0; 1; 2]; [-1; -1; -1]]].
Definition g_haploid : Gt.ndarray Z := Gt.Nd2 [[0; 1]; [1; 1]; [2; -1]].
Definition g_no_allele : Gt.ndarray Z := Gt.Nd3 0 [[[]; []]; [[]; []]].
Definition g_one_dimension : Gt.ndarray Z := Gt.Nd1 [0; 1; -1].

End Examples.

(** * Facts about lists *)

Module ListFacts.

Lemma lookup_map {A B} (f : A -> B) (l : list A) (i : nat) :
  map f l !! i = f <$> (l !! i).
Proof. apply list_lookup_fmap. Qed.

Lemma map_ext_Forall' {A B} (P : A -> Prop) (f g : A -> B) (l : list A) :
  Forall P l -> (forall x, P x -> f x = g x) -> map f l = map g l.
Proof.
  intros Hl Hfg. induction Hl as [|x l Hx _ IH]; simpl; [done|].
  by rewrite IH, Hfg.
Qed.

Lemma zip_with_map_same {A B C D} (f : B -> C -> D) (g : A -> B)
    (h : A -> C) (l : list A) :
  zip_with f (map g l) (map h l) = map (fun x => f (g x) (h x)) l.
Proof. induction l as [|x l IH]; simpl; [done|]. by rewrite IH. Qed.

Lemma zip_with_same {A B} (f : A -> A -> B) (l : list A) :
  zip_with f l l = map (fun x => f x x) l.
Proof. induction l as [|x l IH]; simpl; [done|]. by rewrite IH. Qed.

End ListFacts.

(** * Facts about the numbers *)

Module Float64Facts.

Lemma sgn_opp (p : Qc) : sgn (- p) = CompOpp (sgn p).
Proof.
  unfold sgn, Qccompare, Qcopp, Q2Qc; simpl.
  rewrite Qred_correct.
  destruct p as [[n d] H]; simpl.
  unfold Qcompare; simpl.
  rewrite !Z.mul_1_r. by destruct n.
Qed.

Lemma sgn_mul (p q : Qc) :
  sgn (p * q) =
  match sgn p, sgn q with
  | Eq, _ | _, Eq => Eq
  | Gt, Gt | Lt, Lt => Gt
  | _, _ => Lt
  end.
Proof.
  unfold sgn, Qccompare, Qcmult, Q2Qc; simpl.
  rewrite Qred_correct.
  destruct p as [[n d] H], q as [[n' d'] H']; simpl.
  unfold Qcompare; simpl.
  rewrite !Z.mul_1_r.
  destruct n, n'; simpl; reflexivity.
Qed.

Lemma sgn_of_Z (z : Z) : sgn (Q2Qc (inject_Z z)) = (z ?= 0).
Proof.
  unfold sgn, Qccompare, Q2Qc; simpl.
  rewrite Qred_correct. unfold Qcompare; simpl.
  by rewrite Z.mul_1_r.
Qed.

Lemma Qc_eq_bool_of_Z (z : Z) :
  Qc_eq_bool (Q2Qc (inject_Z z)) 0 = (z =? 0).
Proof.
  unfold Qc_eq_bool.
  destruct (Qcanon.Qc_eq_dec (Q2Qc (inject_Z z)) 0%Qc) as [E|E];
    destruct (Z.eqb_spec z 0) as [Hz|Hz]; try reflexivity.
  - apply Q2Qc_eq_iff in E. unfold Qeq in E; simpl in E. lia.
  - exfalso. apply E. by rewrite Hz.
Qed.

Lemma fadd_comm x y : fadd x y = fadd y x.
Proof. destruct x, y; simpl; try reflexivity. f_equal. ring. Qed.

Lemma fmul_comm x y : fmul x y = fmul y x.
Proof. destruct x, y; simpl; try reflexivity. f_equal. ring. Qed.

Lemma fneg_inf_of s : fneg (inf_of s) = inf_of (CompOpp s).
Proof. by destruct s. Qed.

Lemma fsub_antisym x y : fsub x y = fneg (fsub y x).
Proof. destruct x, y; simpl; try reflexivity. f_equal. ring. Qed.

Lemma fmul_fneg_l x y : fmul (fneg x) y = fneg (fmul x y).
Proof.
  destruct x, y; simpl;
    rewrite ?sgn_opp, ?fneg_inf_of, ?CompOpp_involutive; try reflexivity.
  f_equal. ring.
Qed.

Lemma fsub_zero_l x : fsub fzero x = fneg x.
Proof.
  destruct x; simpl; try reflexivity.
  change (inject_Z 0) with 0%Q. f_equal. ring.
Qed.

Lemma sgn_two_mul (p : Qc) : sgn (Q2Qc (inject_Z 2) * p) = sgn p.
Proof. rewrite sgn_mul, sgn_of_Z. simpl. by destruct (sgn p). Qed.

(** [2 * a * b] is [2 * b * a]. *)
Lemma two_mul_swap a b :
  fmul (fmul (of_Z 2) a) b = fmul (fmul (of_Z 2) b) a.
Proof.
  unfold of_Z, of_Q.
  destruct a as [p| | |], b as [q| | |]; simpl;
    rewrite ?sgn_two_mul, ?sgn_of_Z; simpl; try reflexivity.
  f_equal. ring.
Qed.

Lemma fdiv_of_Z_nonzero (p q : Z) :
  q <> 0 ->
  fdiv (of_Z p) (of_Z q) = Fin (Q2Qc (inject_Z p) / Q2Qc (inject_Z q)).
Proof.
  intros Hq. unfold of_Z, of_Q; simpl.
  rewrite Qc_eq_bool_of_Z. by destruct (Z.eqb_spec q 0).
Qed.

Lemma fdiv_Fin_of_Z_nonzero (p : Qc) (q : Z) :
  q <> 0 -> fdiv (Fin p) (of_Z q) = Fin (p / Q2Qc (inject_Z q)).
Proof.
  intros Hq. unfold of_Z, of_Q; simpl.
  rewrite Qc_eq_bool_of_Z. by destruct (Z.eqb_spec q 0).
Qed.

End Float64Facts.

(** * Facts about allel/gt.py *)

Module GtFacts.
Import Gt Spec Examples.

Lemma lt0_negb_ge0 z : lt0 z = negb (ge0 z).
Proof. unfold lt0, ge0. apply Z.ltb_antisym. Qed.

Lemma map_lt0 (c : list Z) : map lt0 c = map negb (map ge0 c).
Proof.
  induction c as [|z c IH]; simpl; [done|].
  by rewrite IH, lt0_negb_ge0.
Qed.

Lemma map_map_lt0 (a : list (list Z)) :
  map (map lt0) a = map (map negb) (map (map ge0) a).
Proof.
  induction a as [|r a IH]; simpl; [done|].
  by rewrite IH, map_lt0.
Qed.

(** Either allele missing, against both alleles called. *)
Lemma zip_orb_lt0 (r0 r1 : list Z) :
  zip_with orb (map lt0 r0) (map lt0 r1) =
  map negb (zip_with andb (map ge0 r0) (map ge0 r1)).
Proof.
  revert r1. induction r0 as [|x r0 IH]; intros [|y r1]; simpl; try done.
  by rewrite IH, !lt0_negb_ge0, negb_andb.
Qed.

Lemma zip_zip_orb_lt0 (a0 a1 : list (list Z)) :
  zip_with (zip_with orb) (map (map lt0) a0) (map (map lt0) a1) =
  map (map negb)
      (zip_with (zip_with andb) (map (map ge0) a0) (map (map ge0) a1)).
Proof.
  revert a1. induction a0 as [|r0 a0 IH]; intros [|r1 a1]; simpl; try done.
  by rewrite IH, zip_orb_lt0.
Qed.

(** Any allele missing, against all alleles called. *)
Lemma any_lt0 (c : list Z) :
  existsb id (map lt0 c) = negb (forallb id (map ge0 c)).
Proof.
  induction c as [|z c IH]; simpl; [done|].
  by rewrite IH, lt0_negb_ge0, negb_andb.
Qed.

Lemma map_map_any_lt0 (a : list (list (list Z))) :
  map (map (existsb id)) (map (map (map lt0)) a) =
  map (map negb) (map (map (forallb id)) (map (map (map ge0)) a)).
Proof.
  induction a as [|r a IH]; simpl; [done|].
  rewrite IH. f_equal.
  induction r as [|c r IHr]; simpl; [done|].
  by rewrite IHr, any_lt0.
Qed.

(** C10: on a genotype array of two dimensions (haploid) or of three (any
    ploidy), [is_called] and [is_missing] both return, and [is_missing]
    returns the elementwise negation of what [is_called] returns: every call
    is either called or missing, not both and not neither. *)
Theorem is_missing_negates_is_called (g : ndarray Z) :
  genotype_array g ->
  exists out : ndarray bool,
    is_called g = inr out /\ is_missing g = inr (nd_map negb out).
Proof.
  intros [Hd|Hd]; destruct g as [x|a|a|ploidy a|extra]; simpl in Hd;
    try discriminate; try lia.
  - (* two dimensions *)
    eexists; split; [reflexivity|].
    unfold is_missing; simpl. by rewrite map_map_lt0.
  - (* three dimensions *)
    destruct ploidy as [|[|[|ploidy]]].
    + eexists; split; [reflexivity|].
      unfold is_missing; simpl. unfold np_any_axis2, ret; simpl.
      by rewrite map_map_any_lt0.
    + eexists; split; [reflexivity|].
      unfold is_missing; simpl. by rewrite map_map_lt0.
    + eexists; split; [reflexivity|].
      unfold is_missing; simpl. unfold ret. by rewrite zip_zip_orb_lt0.
    + eexists; split; [reflexivity|].
      unfold is_missing; simpl. unfold np_any_axis2, ret; simpl.
      by rewrite map_map_any_lt0.
Qed.

Lemma is_missing_negates_is_called_witness :
  exists out : ndarray bool,
    is_called docstring_g = inr out /\
    is_missing docstring_g = inr (nd_map negb out).
Proof.
  apply (is_missing_negates_is_called docstring_g). right. reflexivity.
Defined.

Example is_called_docstring :
  is_called docstring_g =
  inr (Nd2 [[true; true]; [true; true]; [true; false]]).
Proof. reflexivity. Qed.

Example is_missing_docstring :
  is_missing docstring_g =
  inr (Nd2 [[false; false]; [false; false]; [false; true]]).
Proof. reflexivity. Qed.

End GtFacts.

(** * The jackknife over an arithmetic: the result *)

Module GenericFacts.
Import Generic.

Section OverFacts.
Context {F : Type} (ops : float_ops F).

Lemma generic_set_mask_asarray (i : nat) (v : list F) :
  (i < length v)%nat -> set_mask i true (ma_asarray v) = inr (exclude i v).
Proof.
  intros Hi. unfold set_mask, ma_asarray; simpl.
  rewrite length_replicate.
  by destruct (Nat.ltb_spec i (length v)); [|lia].
Qed.

Lemma generic_set_mask_exclude (i : nat) (v : list F) :
  (i < length v)%nat -> set_mask i false (exclude i v) = inr (ma_asarray v).
Proof.
  intros Hi. unfold set_mask, exclude, ma_asarray; simpl.
  rewrite length_insert, length_replicate.
  destruct (Nat.ltb_spec i (length v)); [|lia].
  by rewrite list_insert_insert_eq, insert_replicate.
Qed.

Lemma generic_set_masks_asarray (i : nat) (vs : list (list F)) :
  Forall (fun v => (i < length v)%nat) vs ->
  set_masks i true (map ma_asarray vs) = inr (map (exclude i) vs).
Proof.
  induction 1 as [|v vs Hv _ IH]; simpl; [done|].
  by rewrite generic_set_mask_asarray, IH.
Qed.

Lemma generic_set_masks_exclude (i : nat) (vs : list (list F)) :
  Forall (fun v => (i < length v)%nat) vs ->
  set_masks i false (map (exclude i) vs) = inr (map ma_asarray vs).
Proof.
  induction 1 as [|v vs Hv _ IH]; simpl; [done|].
  by rewrite generic_set_mask_exclude, IH.
Qed.

Lemma generic_jackknife_step_clean (statistic : jk_statistic F) (i : nat)
    (vs : list (list F)) (vj : list F) :
  Forall (fun v => (i < length v)%nat) vs ->
  jackknife_step statistic i (map ma_asarray vs, vj) =
  inr (map ma_asarray vs, vj ++ [statistic (map (exclude i) vs)]).
Proof.
  intros Hi. unfold jackknife_step.
  rewrite generic_set_masks_asarray by done. simpl.
  by rewrite generic_set_masks_exclude.
Qed.

Local Arguments jackknife_step : simpl never.
Local Arguments jackknife_loop : simpl nomatch.
Local Arguments jackknife_init : simpl never.

Lemma generic_jackknife_loop_clean (statistic : jk_statistic F)
    (range : list nat) (vs : list (list F)) (vj : list F) :
  Forall (fun i => Forall (fun v => (i < length v)%nat) vs) range ->
  jackknife_loop statistic range (map ma_asarray vs, vj) =
  inr (map ma_asarray vs,
       vj ++ map (fun i => statistic (map (exclude i) vs)) range).
Proof.
  intros Hr. revert vj.
  induction Hr as [|i range Hi _ IH]; intros vj; simpl.
  - by rewrite app_nil_r.
  - rewrite generic_jackknife_step_clean by done. simpl.
    by rewrite IH, <- app_assoc.
Qed.

Lemma generic_jackknife_init_equal_length (values : jk_values F) (n : nat) :
  equal_length values n ->
  jackknife_init values = inr (n, map ma_asarray (series values)).
Proof.
  intros [Hne Hn]. unfold jackknife_init.
  destruct values as [v|[|v vs]]; simpl in *; try done.
  - apply Forall_cons in Hn as [<- _]. done.
  - apply Forall_cons in Hn as [<- _]. done.
Qed.

Lemma generic_jackknife_equal_length (values : jk_values F)
    (statistic : jk_statistic F) (n : nat) :
  equal_length values n -> (0 < n)%nat ->
  let vj := map (fun i => statistic (map (exclude i) (series values)))
                (seq 0 n) in
  jackknife ops values statistic =
  inr (mean ops vj, spec_se ops n (mean ops vj) vj, vj).
Proof.
  intros Hn Hpos vj. unfold jackknife.
  rewrite (generic_jackknife_init_equal_length values n Hn). simpl.
  rewrite generic_jackknife_loop_clean.
  2:{ apply Forall_forall. intros i Hi%elem_of_seq.
      eapply Forall_impl; [apply Hn|]. simpl. intros v ->. lia. }
  simpl. unfold py_truediv.
  destruct (Z.eqb_spec (Z.of_nat n) 0) as [E|_]; [lia|].
  reflexivity.
Qed.

End OverFacts.

End GenericFacts.

(** * Facts about the estimators of allel/stats/admixture.py *)

Module EstimatorFacts.
Import Admixture Spec MoreSpec ListFacts Float64Facts Examples.

(** *** Rows of a biallelic array *)

Lemma row_sum_two (r : list Z) :
  length r = 2%nat -> row_sum r = allele_number r.
Proof.
  destruct r as [|x [|y [|z r]]]; try discriminate.
  intros _. unfold allele_number, ref, alt; simpl. lia.
Qed.

Lemma freq_two (r : list Z) :
  length r = 2%nat ->
  nth 1 (map (fun c => fdiv (of_Z c) (of_Z (row_sum r))) r) NaN = spec_freq r.
Proof.
  intros Hr. rewrite (row_sum_two r Hr).
  destruct r as [|x [|y [|z r]]]; try discriminate. reflexivity.
Qed.

Lemma biallelic_rows (ac : array2) :
  biallelic ac -> Forall (fun r => length r = 2%nat) (rows ac).
Proof. intros [H2 Hr]. unfold rectangular in Hr. by rewrite H2 in Hr. Qed.

(** Wrapping around changes nothing in the range of the type. *)
Lemma wrap_id (dt : int_dtype) (z : Z) :
  min_int dt <= z <= max_int dt -> wrap dt z = z.
Proof.
  intros H. unfold wrap. rewrite Z.mod_small; [lia|].
  unfold min_int, max_int in *. destruct dt; simpl in *; lia.
Qed.

Lemma spec_s_exact (r : list Z) :
  min_int int_ <= allele_number r <= max_int int_ ->
  spec_s r = allele_number r.
Proof. apply wrap_id. Qed.

Lemma sum_axis1_biallelic (ac : array2) :
  biallelic ac -> sum_axis1 ac = map spec_s (rows ac).
Proof.
  intros Hb. unfold sum_axis1.
  eapply map_ext_Forall'; [by apply biallelic_rows|].
  intros r Hr. unfold spec_s. by rewrite (row_sum_two r Hr).
Qed.

Lemma to_frequencies_biallelic (ac : array2) :
  biallelic ac -> fcol 1 (to_frequencies ac) = map spec_freq (rows ac).
Proof.
  intros Hb. unfold fcol, to_frequencies. rewrite map_map.
  eapply map_ext_Forall'; [by apply biallelic_rows|].
  apply freq_two.
Qed.

(** The entries of [h_hat], row by row. *)
Lemma h_hat_biallelic (ac : array2) :
  biallelic ac -> h_hat ac = inr (map (h_row (dtype ac)) (rows ac)).
Proof.
  intros Hb. unfold h_hat, asarray_ndim; simpl.
  rewrite (proj1 Hb); simpl. unfold ret. f_equal.
  rewrite (sum_axis1_biallelic ac Hb).
  unfold int_div, int_mul, int_sub_scalar, col.
  apply list_eq; intros i.
  repeat (rewrite ?lookup_zip_with, ?lookup_map).
  by destruct (rows ac !! i).
Qed.

(** Where the products fit their types, the entry of [h_hat] is the
    formula on the integers. *)
Lemma h_row_exact (dt : int_dtype) (r : list Z) :
  0 <= ref r -> 0 <= alt r -> products_fit dt r -> h_row dt r = spec_h r.
Proof.
  intros Hr Ha [Hp Hn]. unfold h_row, spec_h, spec_s. cbv zeta.
  assert (min_int dt <= 0 /\ min_int int_ <= -1 /\ 1 <= max_int int_)
    as (Hm & Hm' & HM) by (unfold min_int, max_int; destruct dt; simpl; lia).
  assert (0 <= allele_number r) as H0 by (unfold allele_number; lia).
  assert (0 <= ref r * alt r) as Hp0 by (apply Z.mul_nonneg_nonneg; lia).
  set (an := allele_number r) in *.
  assert (0 <= an * (an - 1)) as Hn0 by nia.
  assert (an <= 1 \/ an <= an * (an - 1)) as Hle by nia.
  rewrite (wrap_id dt) by lia.
  rewrite (wrap_id int_ an) by lia.
  rewrite (wrap_id int_ (an - 1)) by lia.
  rewrite (wrap_id int_) by lia.
  reflexivity.
Qed.

Lemma pop1_biallelic : biallelic pop1.
Proof. split; [reflexivity|]. repeat constructor. Qed.

Lemma large_counts_biallelic : biallelic large_counts.
Proof. split; [reflexivity|]. repeat constructor. Qed.

(** C3: [h_hat] returns [(ref * alt) / (an * (an - 1))] on the row
    [(3, 1)], which is 0.25, but not on every row: it multiplies the two
    columns in the integer type of the array, and on the 32-bit counts
    [(50000, 50000)] the product 2500000000 wraps around to -1794967296,
    so that the estimate is negative where the formula gives
    25000/99999. *)
Theorem h_hat_int32_overflow :
  h_hat pop1 = inr [of_Q (1 # 4)] /\
  wrap int32 (50000 * 50000) = -1794967296 /\
  h_hat large_counts = inr [fdiv (of_Z (-1794967296)) (of_Z 9999900000)] /\
  spec_h [50000; 50000] = fdiv (of_Z 2500000000) (of_Z 9999900000) /\
  h_hat large_counts <> inr (map spec_h (rows large_counts)).
Proof.
  split; [|split; [reflexivity|]].
  - rewrite (h_hat_biallelic pop1 pop1_biallelic).
    vm_compute. do 3 f_equal. by apply Qc_is_canon.
  - rewrite (h_hat_biallelic large_counts large_counts_biallelic).
    split; [reflexivity|]. split; [reflexivity|]. discriminate.
Qed.

(** *** Input checks *)

Lemma check_dim0_aligned_ok (a : array2) (others : list array2) :
  Forall (fun b => shape0 b = shape0 a) others ->
  check_dim0_aligned (a :: others) = inr tt.
Proof.
  intros H. unfold check_dim0_aligned.
  replace (forallb _ others) with true; [done|].
  symmetry. apply forallb_forall. intros b Hb.
  rewrite Forall_forall in H. apply Nat.eqb_eq, H. by apply list_elem_of_In.
Qed.

Lemma check_dim0_aligned_fails (a : array2) (others : list array2) :
  ~ Forall (fun b => shape0 b = shape0 a) others ->
  exists msg,
    check_dim0_aligned (a :: others) = inl (DimensionMismatchError msg).
Proof.
  intros H. unfold check_dim0_aligned.
  destruct (forallb _ others) eqn:E; [|by eexists].
  destruct H. apply Forall_forall. intros b Hb.
  rewrite forallb_forall in E. apply Nat.eqb_eq, E. by apply list_elem_of_In.
Qed.

(** *** The estimators on biallelic, aligned arrays *)

Local Arguments check_dim0_aligned : simpl never.
Local Arguments h_hat : simpl never.
Local Arguments to_frequencies : simpl never.
Local Arguments sum_axis1 : simpl never.

Lemma patterson_f2_biallelic (aca acb : array2) :
  biallelic aca -> biallelic acb -> shape0 acb = shape0 aca ->
  patterson_f2 aca acb =
  inr (zip_with (fun ra rb =>
                   spec_f2 ra rb (h_row (dtype aca) ra) (h_row (dtype acb) rb))
         (rows aca) (rows acb)).
Proof.
  intros Ha Hb Hn. unfold patterson_f2, AlleleCountsArray; simpl.
  rewrite (proj1 Ha), (proj1 Hb); simpl.
  rewrite check_dim0_aligned_ok by (by repeat constructor). simpl.
  rewrite (h_hat_biallelic aca Ha), (h_hat_biallelic acb Hb); simpl.
  rewrite !sum_axis1_biallelic, !to_frequencies_biallelic by done.
  unfold ret. f_equal. unfold float_int_div.
  apply list_eq; intros i.
  rewrite !lookup_zip_with, !lookup_map, !lookup_zip_with, !lookup_map.
  by destruct (rows aca !! i), (rows acb !! i).
Qed.

(** A population against itself: the squared difference vanishes. *)
Lemma spec_f2_self (dt : int_dtype) (r : list Z) :
  length r = 2%nat -> Forall (fun c => 0 <= c) r ->
  spec_f2 r r (h_row dt r) (h_row dt r) =
  fsub (fneg (spec_h_over_s (h_row dt r) r)) (spec_h_over_s (h_row dt r) r).
Proof.
  destruct r as [|x [|y [|z r]]]; try discriminate. intros _ Hr.
  apply Forall_cons in Hr as [Hx Hr]. apply Forall_cons in Hr as [Hy _].
  unfold spec_f2. destruct (Z.eq_dec (x + y) 0) as [E|E].
  - assert (x = 0) as -> by lia. assert (y = 0) as -> by lia.
    by destruct dt.
  - unfold spec_freq at 1 2. unfold allele_number, ref, alt; simpl nth.
    rewrite fdiv_of_Z_nonzero by done. simpl fsub at 3.
    unfold fsquare; simpl fmul.
    match goal with |- context [Fin ?q] =>
      replace q with (Q2Qc (inject_Z 0)) by (change (inject_Z 0) with 0%Q; ring)
    end.
    change (Fin (Q2Qc (inject_Z 0))) with fzero.
    by rewrite fsub_zero_l.
Qed.

(** C4: on two biallelic arrays of one length, [patterson_f2] returns per
    row [(freqA - freqB)^2 - hA/sA - hB/sB], with [hA] and [hB] the entries
    that [h_hat] returns for the two populations and [sA] and [sB] the
    allele numbers as [sum(axis=1)] has them (the allele numbers
    themselves when they fit 64 bits); on a population (with no negative
    count) against itself this is [-hA/sA - hA/sA], which is [-1/8] and
    not zero on the row [(3, 1)]. *)
Theorem patterson_f2_spec (aca acb : array2) :
  biallelic aca -> biallelic acb -> shape0 acb = shape0 aca ->
  (exists x ha hb : list float64,
     patterson_f2 aca acb = inr x /\
     h_hat aca = inr ha /\ h_hat acb = inr hb /\
     length x = shape0 aca /\
     length ha = shape0 aca /\ length hb = shape0 aca /\
     forall i ra rb hA hB,
       rows aca !! i = Some ra -> rows acb !! i = Some rb ->
       ha !! i = Some hA -> hb !! i = Some hB ->
       x !! i = Some (spec_f2 ra rb hA hB)) /\
  (forall r, min_int int_ <= allele_number r <= max_int int_ ->
     spec_s r = allele_number r) /\
  (nonneg aca ->
   exists x ha : list float64,
     patterson_f2 aca aca = inr x /\ h_hat aca = inr ha /\
     forall i r hA, rows aca !! i = Some r -> ha !! i = Some hA ->
       x !! i = Some (fsub (fneg (spec_h_over_s hA r))
                           (spec_h_over_s hA r))) /\
  (patterson_f2 pop1 pop1 = inr [of_Q (-1 # 8)] /\ of_Q (-1 # 8) <> fzero).
Proof.
  intros Ha Hb Hn. split; [|split; [apply spec_s_exact|split]].
  - eexists _, _, _.
    split; [by apply patterson_f2_biallelic|].
    split; [by apply h_hat_biallelic|].
    split; [by apply h_hat_biallelic|].
    rewrite length_zip_with, !length_map. unfold shape0 in *.
    split; [lia|]. split; [done|]. split; [done|].
    intros i ra rb hA hB Hia Hib HA HB.
    rewrite lookup_map, Hia in HA. rewrite lookup_map, Hib in HB.
    simpl in HA, HB. injection HA as <-. injection HB as <-.
    by rewrite lookup_zip_with, Hia, Hib.
  - intros Hnn. eexists _, _.
    split; [by apply patterson_f2_biallelic|].
    split; [by apply h_hat_biallelic|].
    intros i r hA Hi HA. rewrite lookup_map, Hi in HA.
    simpl in HA. injection HA as <-.
    rewrite lookup_zip_with, Hi; simpl. f_equal.
    apply spec_f2_self.
    + by eapply (Forall_lookup_1 _ _ _ _ (biallelic_rows _ Ha)).
    + by eapply (Forall_lookup_1 _ _ _ _ Hnn).
  - split; [|discriminate].
    rewrite (patterson_f2_biallelic pop1 pop1)
      by (done || apply pop1_biallelic).
    vm_compute. do 3 f_equal. by apply Qc_is_canon.
Qed.

Lemma patterson_f2_spec_witness :
  (exists x ha hb : list float64,
     patterson_f2 pop1 pop2 = inr x /\
     h_hat pop1 = inr ha /\ h_hat pop2 = inr hb /\
     length x = shape0 pop1 /\
     length ha = shape0 pop1 /\ length hb = shape0 pop1 /\
     forall i ra rb hA hB,
       rows pop1 !! i = Some ra -> rows pop2 !! i = Some rb ->
       ha !! i = Some hA -> hb !! i = Some hB ->
       x !! i = Some (spec_f2 ra rb hA hB)) /\
  (forall r, min_int int_ <= allele_number r <= max_int int_ ->
     spec_s r = allele_number r) /\
  (nonneg pop1 ->
   exists x ha : list float64,
     patterson_f2 pop1 pop1 = inr x /\ h_hat pop1 = inr ha /\
     forall i r hA, rows pop1 !! i = Some r -> ha !! i = Some hA ->
       x !! i = Some (fsub (fneg (spec_h_over_s hA r))
                           (spec_h_over_s hA r))) /\
  (patterson_f2 pop1 pop1 = inr [of_Q (-1 # 8)] /\ of_Q (-1 # 8) <> fzero).
Proof.
  apply (patterson_f2_spec pop1 pop2).
  - split; [reflexivity|]. repeat constructor.
  - split; [reflexivity|]. repeat constructor.
  - reflexivity.
Defined.

Lemma patterson_f3_biallelic (acc aca acb : array2) :
  biallelic acc -> biallelic aca -> biallelic acb ->
  shape0 acb = shape0 aca -> shape0 acc = shape0 aca ->
  patterson_f3 acc aca acb =
  let a := map spec_freq (rows aca) in
  let b := map spec_freq (rows acb) in
  let c := map spec_freq (rows acc) in
  inr (zip_with fsub
         (zip_with fmul (zip_with fsub c a) (zip_with fsub c b))
         (map (fun r => spec_h_over_s (h_row (dtype acc) r) r) (rows acc)),
       map (fun r => spec_f3_B (h_row (dtype acc) r)) (rows acc)).
Proof.
  intros Hc Ha Hb Hnb Hnc. unfold patterson_f3, AlleleCountsArray; simpl.
  rewrite (proj1 Ha), (proj1 Hb), (proj1 Hc); simpl.
  rewrite check_dim0_aligned_ok by (by repeat constructor). simpl.
  rewrite (h_hat_biallelic acc Hc); simpl.
  rewrite !sum_axis1_biallelic, !to_frequencies_biallelic by done.
  unfold ret, float_int_div.
  rewrite zip_with_map_same, map_map. reflexivity.
Qed.

(** C5: on three biallelic arrays of one length, [patterson_f3] returns two
    arrays with one value per variant: [T = (c - a) * (c - b) - hC/sC] and
    [B = 2 * hC], with [hC] the entry that [h_hat] returns for the test
    population and [sC] its allele number as [sum(axis=1)] has it (the
    allele number itself when it fits 64 bits). *)
Theorem patterson_f3_spec (acc aca acb : array2) :
  biallelic acc -> biallelic aca -> biallelic acb ->
  shape0 acb = shape0 aca -> shape0 acc = shape0 aca ->
  (exists T B hc : list float64,
     patterson_f3 acc aca acb = inr (T, B) /\
     h_hat acc = inr hc /\
     length T = shape0 acc /\ length B = shape0 acc /\
     length hc = shape0 acc /\
     forall i rc ra rb hC,
       rows acc !! i = Some rc -> rows aca !! i = Some ra ->
       rows acb !! i = Some rb -> hc !! i = Some hC ->
       T !! i = Some (spec_f3_T rc ra rb hC) /\
       B !! i = Some (spec_f3_B hC)) /\
  (forall r, min_int int_ <= allele_number r <= max_int int_ ->
     spec_s r = allele_number r).
Proof.
  intros Hc Ha Hb Hnb Hnc. split; [|apply spec_s_exact]. eexists _, _, _.
  split; [by apply patterson_f3_biallelic|].
  split; [by apply h_hat_biallelic|].
  rewrite !length_zip_with, !length_map. unfold shape0 in *.
  split; [lia|]. split; [done|]. split; [done|].
  intros i rc ra rb hC Hic Hia Hib HC.
  rewrite lookup_map, Hic in HC. simpl in HC. injection HC as <-.
  rewrite !lookup_zip_with, !lookup_map, Hic, Hia, Hib. done.
Qed.

Lemma patterson_f3_spec_witness :
  (exists T B hc : list float64,
     patterson_f3 pop3 pop1 pop2 = inr (T, B) /\
     h_hat pop3 = inr hc /\
     length T = shape0 pop3 /\ length B = shape0 pop3 /\
     length hc = shape0 pop3 /\
     forall i rc ra rb hC,
       rows pop3 !! i = Some rc -> rows pop1 !! i = Some ra ->
       rows pop2 !! i = Some rb -> hc !! i = Some hC ->
       T !! i = Some (spec_f3_T rc ra rb hC) /\
       B !! i = Some (spec_f3_B hC)) /\
  (forall r, min_int int_ <= allele_number r <= max_int int_ ->
     spec_s r = allele_number r).
Proof.
  apply (patterson_f3_spec pop3 pop1 pop2).
  - split; [reflexivity|]. repeat constructor.
  - split; [reflexivity|]. repeat constructor.
  - split; [reflexivity|]. repeat constructor.
  - reflexivity.
  - reflexivity.
Defined.

Lemma patterson_d_checked (aca acb acc acd : array2) :
  shape1 aca = 2%nat -> shape1 acb = 2%nat ->
  shape1 acc = 2%nat -> shape1 acd = 2%nat ->
  shape0 acb = shape0 aca -> shape0 acc = shape0 aca ->
  shape0 acd = shape0 aca ->
  patterson_d aca acb acc acd =
  let a := fcol 1 (to_frequencies aca) in
  let b := fcol 1 (to_frequencies acb) in
  let c := fcol 1 (to_frequencies acc) in
  let d := fcol 1 (to_frequencies acd) in
  inr (zip_with fmul (zip_with fsub a b) (zip_with fsub c d),
       zip_with fmul
         (zip_with fsub (zip_with fadd a b)
                        (zip_with fmul (map (fmul (of_Z 2)) a) b))
         (zip_with fsub (zip_with fadd c d)
                        (zip_with fmul (map (fmul (of_Z 2)) c) d))).
Proof.
  intros Ha Hb Hc Hd Hnb Hnc Hnd. unfold patterson_d, AlleleCountsArray; simpl.
  rewrite Ha, Hb, Hc, Hd; simpl.
  rewrite check_dim0_aligned_ok by (by repeat constructor). reflexivity.
Qed.

Local Arguments fmul : simpl never.
Local Arguments fadd : simpl never.
Local Arguments fsub : simpl never.
Local Arguments fneg : simpl never.
Local Arguments of_Z : simpl never.

Lemma num_swap (a b x : list float64) :
  zip_with fmul (zip_with fsub b a) x =
  map fneg (zip_with fmul (zip_with fsub a b) x).
Proof.
  apply list_eq; intros i.
  rewrite lookup_map, !lookup_zip_with.
  destruct (a !! i) as [p|], (b !! i) as [q|], (x !! i) as [r|];
    simpl; try done.
  by rewrite (fsub_antisym q p), fmul_fneg_l.
Qed.

Lemma den_swap (a b : list float64) :
  zip_with fsub (zip_with fadd b a) (zip_with fmul (map (fmul (of_Z 2)) b) a) =
  zip_with fsub (zip_with fadd a b) (zip_with fmul (map (fmul (of_Z 2)) a) b).
Proof.
  apply list_eq; intros i.
  rewrite !lookup_zip_with, !lookup_map.
  destruct (a !! i) as [p|], (b !! i) as [q|]; simpl; try done.
  by rewrite (fadd_comm q p), (two_mul_swap q p).
Qed.

Lemma fneg_involutive x : fneg (fneg x) = x.
Proof.
  destruct x as [q| | |]; try reflexivity.
  unfold fneg. by rewrite Qcopp_involutive.
Qed.

(** C6: on four biallelic arrays of one length, [patterson_d] returns a
    numerator [(a - b) * (c - d)] and a denominator
    [(a + b - 2ab) * (c + d - 2cd)] per variant, and with the first two
    populations swapped it returns the negated numerator and the same
    denominator. *)
Theorem patterson_d_antisymmetry (aca acb acc acd : array2) :
  biallelic aca -> biallelic acb -> biallelic acc -> biallelic acd ->
  shape0 acb = shape0 aca -> shape0 acc = shape0 aca ->
  shape0 acd = shape0 aca ->
  exists num den num' den' : list float64,
    patterson_d aca acb acc acd = inr (num, den) /\
    patterson_d acb aca acc acd = inr (num', den') /\
    num = map fneg num' /\ num' = map fneg num /\ den = den' /\
    length num = shape0 aca /\ length den = shape0 aca /\
    forall i ra rb rc rd,
      rows aca !! i = Some ra -> rows acb !! i = Some rb ->
      rows acc !! i = Some rc -> rows acd !! i = Some rd ->
      num !! i = Some (spec_d_num ra rb rc rd) /\
      den !! i = Some (spec_d_den ra rb rc rd).
Proof.
  intros Ha Hb Hc Hd Hnb Hnc Hnd.
  rewrite (patterson_d_checked aca acb acc acd),
    (patterson_d_checked acb aca acc acd)
    by (try apply Ha; try apply Hb; try apply Hc; try apply Hd; congruence).
  cbv zeta. eexists _, _, _, _. split; [reflexivity|].
  split; [reflexivity|].
  split; [apply num_swap|]. split; [apply num_swap|].
  split; [by rewrite den_swap|].
  rewrite !to_frequencies_biallelic by done.
  rewrite !length_zip_with, !length_map. unfold shape0 in *.
  split; [lia|]. split; [lia|].
  intros i ra rb rc rd Hia Hib Hic Hid.
  rewrite !lookup_zip_with, !lookup_map, Hia, Hib, Hic, Hid. done.
Qed.

Lemma patterson_d_antisymmetry_witness :
  exists num den num' den' : list float64,
    patterson_d pop1 pop2 pop3 pop4 = inr (num, den) /\
    patterson_d pop2 pop1 pop3 pop4 = inr (num', den') /\
    num = map fneg num' /\ num' = map fneg num /\ den = den' /\
    length num = shape0 pop1 /\ length den = shape0 pop1 /\
    forall i ra rb rc rd,
      rows pop1 !! i = Some ra -> rows pop2 !! i = Some rb ->
      rows pop3 !! i = Some rc -> rows pop4 !! i = Some rd ->
      num !! i = Some (spec_d_num ra rb rc rd) /\
      den !! i = Some (spec_d_den ra rb rc rd).
Proof.
  apply (patterson_d_antisymmetry pop1 pop2 pop3 pop4).
  - split; [reflexivity|]. repeat constructor.
  - split; [reflexivity|]. repeat constructor.
  - split; [reflexivity|]. repeat constructor.
  - split; [reflexivity|]. repeat constructor.
  - reflexivity.
  - reflexivity.
  - reflexivity.
Defined.

(** *** Rejected inputs *)

(** C7, as the specification states it, fails: [h_hat] on an array of three
    columns raises an assertion error, which is no argument error. *)
Lemma h_hat_argument_error_counterexample :
  shape1 three_columns <> 2%nat /\
  h_hat three_columns = inl (AssertionError biallelic_msg) /\
  ~ exists msg, h_hat three_columns = inl (ArgumentError msg).
Proof.
  split; [discriminate|]. split; [reflexivity|].
  intros [msg H]. discriminate H.
Qed.

Lemma assert_biallelic_fails (ac : array2) :
  shape1 ac <> 2%nat ->
  assert_ (shape1 ac =? 2)%nat biallelic_msg =
  inl (AssertionError biallelic_msg).
Proof. intros H. by destruct (Nat.eqb_spec (shape1 ac) 2). Qed.

Ltac check_columns ac :=
  destruct (Nat.eqb_spec (shape1 ac) 2) as [?|?]; simpl; try done.

(** C7, amended: when an input array does not have exactly two columns,
    each of [h_hat], [patterson_f2], [patterson_f3] and [patterson_d] raises
    an assertion error (only biallelic variants supported) and returns no
    result. *)
Theorem non_biallelic_raises_assertion_error (aca acb acc acd : array2) :
  (shape1 aca <> 2%nat ->
   h_hat aca = inl (AssertionError biallelic_msg)) /\
  (shape1 aca <> 2%nat \/ shape1 acb <> 2%nat ->
   patterson_f2 aca acb = inl (AssertionError biallelic_msg)) /\
  (shape1 acc <> 2%nat \/ shape1 aca <> 2%nat \/ shape1 acb <> 2%nat ->
   patterson_f3 acc aca acb = inl (AssertionError biallelic_msg)) /\
  (shape1 aca <> 2%nat \/ shape1 acb <> 2%nat \/
   shape1 acc <> 2%nat \/ shape1 acd <> 2%nat ->
   patterson_d aca acb acc acd = inl (AssertionError biallelic_msg)).
Proof.
  repeat split.
  - intros H. unfold h_hat, asarray_ndim; simpl. by check_columns aca.
  - intros H. unfold patterson_f2, AlleleCountsArray; simpl.
    check_columns aca. check_columns acb. lia.
  - intros H. unfold patterson_f3, AlleleCountsArray; simpl.
    check_columns aca. check_columns acb.
    check_columns acc. lia.
  - intros H. unfold patterson_d, AlleleCountsArray; simpl.
    check_columns aca. check_columns acb.
    check_columns acc. check_columns acd. lia.
Qed.

Lemma non_biallelic_raises_assertion_error_witness :
  h_hat three_columns = inl (AssertionError biallelic_msg) /\
  patterson_f2 pop1 three_columns = inl (AssertionError biallelic_msg) /\
  patterson_f3 three_columns pop1 pop2 = inl (AssertionError biallelic_msg) /\
  patterson_d pop1 pop2 pop3 three_columns =
    inl (AssertionError biallelic_msg).
Proof.
  split; [|split; [|split]].
  - apply (proj1
      (non_biallelic_raises_assertion_error three_columns pop1 pop1 pop1)).
    simpl; lia.
  - apply (proj1 (proj2
      (non_biallelic_raises_assertion_error pop1 three_columns pop1 pop1))).
    right. simpl; lia.
  - apply (proj1 (proj2 (proj2
      (non_biallelic_raises_assertion_error pop1 pop2 three_columns pop1)))).
    left. simpl; lia.
  - apply (proj2 (proj2 (proj2
      (non_biallelic_raises_assertion_error pop1 pop2 pop3 three_columns)))).
    right. right. right. simpl; lia.
Defined.

Lemma patterson_d_misaligned_fails (aca acb acc acd : array2) :
  ~ (shape0 acb = shape0 aca /\ shape0 acc = shape0 aca /\
     shape0 acd = shape0 aca) ->
  exists e,
    patterson_d aca acb acc acd = inl e /\
    (shape1 aca = 2%nat -> shape1 acb = 2%nat ->
     shape1 acc = 2%nat -> shape1 acd = 2%nat ->
     exists msg, e = DimensionMismatchError msg).
Proof.
  intros Hn.
  destruct (check_dim0_aligned_fails aca [acb; acc; acd]) as [msg Hmsg].
  { intros HF. apply Hn.
    apply Forall_cons in HF as [? HF]. apply Forall_cons in HF as [? HF].
    by apply Forall_cons in HF as [? _]. }
  unfold patterson_d, AlleleCountsArray; simpl.
  check_columns aca; [|eexists; split; [done|congruence]].
  check_columns acb; [|eexists; split; [done|congruence]].
  check_columns acc; [|eexists; split; [done|congruence]].
  check_columns acd; [|eexists; split; [done|congruence]].
  rewrite Hmsg. simpl. eexists; split; [done|]. by exists msg.
Qed.

Lemma patterson_f2_misaligned_fails (aca acb : array2) :
  shape0 acb <> shape0 aca ->
  exists e,
    patterson_f2 aca acb = inl e /\
    (shape1 aca = 2%nat -> shape1 acb = 2%nat ->
     exists msg, e = DimensionMismatchError msg).
Proof.
  intros Hn.
  destruct (check_dim0_aligned_fails aca [acb]) as [msg Hmsg].
  { intros HF. apply Hn. by apply Forall_cons in HF as [? _]. }
  unfold patterson_f2, AlleleCountsArray; simpl.
  check_columns aca; [|eexists; split; [done|congruence]].
  check_columns acb; [|eexists; split; [done|congruence]].
  rewrite Hmsg. simpl. eexists; split; [done|]. by exists msg.
Qed.

Lemma patterson_f3_misaligned_fails (acc aca acb : array2) :
  ~ (shape0 acb = shape0 aca /\ shape0 acc = shape0 aca) ->
  exists e,
    patterson_f3 acc aca acb = inl e /\
    (shape1 aca = 2%nat -> shape1 acb = 2%nat -> shape1 acc = 2%nat ->
     exists msg, e = DimensionMismatchError msg).
Proof.
  intros Hn.
  destruct (check_dim0_aligned_fails aca [acb; acc]) as [msg Hmsg].
  { intros HF. apply Hn.
    apply Forall_cons in HF as [? HF]. by apply Forall_cons in HF as [? _]. }
  unfold patterson_f3, AlleleCountsArray; simpl.
  check_columns aca; [|eexists; split; [done|congruence]].
  check_columns acb; [|eexists; split; [done|congruence]].
  check_columns acc; [|eexists; split; [done|congruence]].
  rewrite Hmsg. simpl. eexists; split; [done|]. by exists msg.
Qed.

(** C8: when the arrays do not all have the length of the first,
    [patterson_d] raises and returns no arrays, and so do [patterson_f2],
    [patterson_f3] and [blockwise_patterson_d]; the exception is a
    dimension-mismatch error when every array has two columns (an array of
    another width fails the column check, which comes first). *)
Theorem misaligned_raises_dimension_mismatch (aca acb acc acd : array2) :
  (~ (shape0 acb = shape0 aca /\ shape0 acc = shape0 aca /\
      shape0 acd = shape0 aca) ->
   exists e,
     patterson_d aca acb acc acd = inl e /\
     (forall sqrt blen,
        blockwise_patterson_d sqrt aca acb acc acd blen = inl e) /\
     (shape1 aca = 2%nat -> shape1 acb = 2%nat ->
      shape1 acc = 2%nat -> shape1 acd = 2%nat ->
      exists msg, e = DimensionMismatchError msg)) /\
  (shape0 acb <> shape0 aca ->
   exists e,
     patterson_f2 aca acb = inl e /\
     (shape1 aca = 2%nat -> shape1 acb = 2%nat ->
      exists msg, e = DimensionMismatchError msg)) /\
  (~ (shape0 acb = shape0 aca /\ shape0 acc = shape0 aca) ->
   exists e,
     patterson_f3 acc aca acb = inl e /\
     (shape1 aca = 2%nat -> shape1 acb = 2%nat -> shape1 acc = 2%nat ->
      exists msg, e = DimensionMismatchError msg)).
Proof.
  split; [|split].
  - intros Hn.
    destruct (patterson_d_misaligned_fails aca acb acc acd Hn)
      as (e & He & Hkind).
    exists e. split; [done|]. split; [|done].
    intros sqrt blen. unfold blockwise_patterson_d. by rewrite He.
  - apply patterson_f2_misaligned_fails.
  - apply patterson_f3_misaligned_fails.
Qed.

Lemma misaligned_raises_dimension_mismatch_witness :
  (exists msg,
     patterson_d pop1 two_variants pop3 pop4 =
     inl (DimensionMismatchError msg)) /\
  (exists msg,
     patterson_f2 pop1 two_variants = inl (DimensionMismatchError msg)) /\
  (exists msg,
     patterson_f3 pop3 pop1 two_variants = inl (DimensionMismatchError msg)).
Proof.
  destruct (misaligned_raises_dimension_mismatch pop1 two_variants pop3 pop4)
    as (Hd & H2 & H3).
  split; [|split].
  - destruct Hd as (e & He & _ & Hkind).
    { intros (H & _ & _). discriminate H. }
    destruct Hkind as [msg ->]; try reflexivity. by exists msg.
  - destruct H2 as (e & He & Hkind); [discriminate|].
    destruct Hkind as [msg ->]; try reflexivity. by exists msg.
  - destruct H3 as (e & He & Hkind).
    { intros (H & _). discriminate H. }
    destruct Hkind as [msg ->]; try reflexivity. by exists msg.
Defined.

End EstimatorFacts.

(** * Facts about the jackknife *)

Module JackknifeFacts.
Import Admixture Spec ListFacts Float64Facts Aux Examples.

(** *** Excluding and restoring one entry *)

Lemma set_mask_asarray (i : nat) (v : list float64) :
  (i < length v)%nat -> set_mask i true (ma_asarray v) = inr (exclude i v).
Proof.
  intros Hi. unfold set_mask, ma_asarray; simpl.
  rewrite length_replicate.
  by destruct (Nat.ltb_spec i (length v)); [|lia].
Qed.

Lemma set_mask_exclude (i : nat) (v : list float64) :
  (i < length v)%nat -> set_mask i false (exclude i v) = inr (ma_asarray v).
Proof.
  intros Hi. unfold set_mask, exclude, ma_asarray; simpl.
  rewrite length_insert, length_replicate.
  destruct (Nat.ltb_spec i (length v)); [|lia].
  by rewrite list_insert_insert_eq, insert_replicate.
Qed.

Lemma set_masks_asarray (i : nat) (vs : list (list float64)) :
  Forall (fun v => (i < length v)%nat) vs ->
  set_masks i true (map ma_asarray vs) = inr (map (exclude i) vs).
Proof.
  induction 1 as [|v vs Hv _ IH]; simpl; [done|].
  by rewrite set_mask_asarray, IH.
Qed.

Lemma set_masks_exclude (i : nat) (vs : list (list float64)) :
  Forall (fun v => (i < length v)%nat) vs ->
  set_masks i false (map (exclude i) vs) = inr (map ma_asarray vs).
Proof.
  induction 1 as [|v vs Hv _ IH]; simpl; [done|].
  by rewrite set_mask_exclude, IH.
Qed.

Lemma jackknife_step_clean (statistic : jk_statistic) (i : nat)
    (vs : list (list float64)) (vj : list float64) :
  Forall (fun v => (i < length v)%nat) vs ->
  jackknife_step statistic i (map ma_asarray vs, vj) =
  inr (map ma_asarray vs, vj ++ [statistic (map (exclude i) vs)]).
Proof.
  intros Hi. unfold jackknife_step.
  rewrite set_masks_asarray by done. simpl.
  by rewrite set_masks_exclude.
Qed.

Local Arguments jackknife_step : simpl never.
Local Arguments jackknife_loop : simpl nomatch.
Local Arguments jackknife_init : simpl never.

Lemma jackknife_loop_clean (statistic : jk_statistic) (range : list nat)
    (vs : list (list float64)) (vj : list float64) :
  Forall (fun i => Forall (fun v => (i < length v)%nat) vs) range ->
  jackknife_loop statistic range (map ma_asarray vs, vj) =
  inr (map ma_asarray vs,
       vj ++ map (fun i => statistic (map (exclude i) vs)) range).
Proof.
  intros Hr. revert vj.
  induction Hr as [|i range Hi _ IH]; intros vj; simpl.
  - by rewrite app_nil_r.
  - rewrite jackknife_step_clean by done. simpl.
    by rewrite IH, <- app_assoc.
Qed.

Lemma jackknife_init_equal_length (values : jk_values) (n : nat) :
  equal_length values n ->
  jackknife_init values = inr (n, map ma_asarray (series values)).
Proof.
  intros [Hne Hn]. unfold jackknife_init.
  destruct values as [v|[|v vs]]; simpl in *; try done.
  - apply Forall_cons in Hn as [<- _]. done.
  - apply Forall_cons in Hn as [<- _]. done.
Qed.

Lemma jackknife_run_equal_length (values : jk_values)
    (statistic : jk_statistic) (n : nat) :
  equal_length values n ->
  jackknife_run values statistic =
  inr (n, (map ma_asarray (series values),
           map (fun i => statistic (map (exclude i) (series values)))
               (seq 0 n))).
Proof.
  intros Hn. unfold jackknife_run.
  rewrite (jackknife_init_equal_length values n Hn). simpl.
  rewrite jackknife_loop_clean; [done|].
  apply Forall_forall. intros i Hi%elem_of_seq.
  eapply Forall_impl; [apply Hn|]. simpl. intros v ->. lia.
Qed.

Lemma clean_data (vs : list (list float64)) :
  map data (map ma_asarray vs) = vs.
Proof. induction vs as [|v vs IH]; simpl; [done|]. by rewrite IH. Qed.

Lemma clean_mask (vs : list (list float64)) :
  Forall (fun m => Forall (fun b => b = false) (mask m)) (map ma_asarray vs).
Proof.
  induction vs as [|v vs IH]; simpl; constructor; [|done].
  simpl. apply Forall_replicate. done.
Qed.

(** C2: on series of one length [n], every iteration [i] of the loop of
    [jackknife] starts from the arrays with no entry excluded, computes the
    statistic with entry [i] excluded and no other, and ends with no entry
    excluded; after the loop the data are the input series and no entry is
    excluded. *)
Theorem jackknife_masking_isolation (values : jk_values)
    (statistic : jk_statistic) (n : nat) :
  equal_length values n ->
  (forall i vj, (i < n)%nat ->
     jackknife_step statistic i (map ma_asarray (series values), vj) =
     inr (map ma_asarray (series values),
          vj ++ [statistic (map (exclude i) (series values))])) /\
  exists (masked_values : list masked_array) (vj : list float64),
    jackknife_run values statistic = inr (n, (masked_values, vj)) /\
    map data masked_values = series values /\
    Forall (fun m => Forall (fun b => b = false) (mask m)) masked_values /\
    vj = map (fun i => statistic (map (exclude i) (series values))) (seq 0 n).
Proof.
  intros Hn. split.
  - intros i vj Hi. apply jackknife_step_clean.
    eapply Forall_impl; [apply Hn|]. simpl. intros v ->. done.
  - eexists _, _. split; [by apply jackknife_run_equal_length|].
    split; [apply clean_data|]. split; [apply clean_mask|]. done.
Qed.

(** *** The mean of the replicates *)


Lemma QcZ_add (a b : Z) : QcZ (a + b) = (QcZ a + QcZ b)%Qc.
Proof.
  apply Qc_is_canon. unfold QcZ; simpl.
  rewrite !Qred_correct, inject_Z_plus. reflexivity.
Qed.

Lemma QcZ_succ (n : nat) : QcZ (Z.of_nat (S n)) = (QcZ (Z.of_nat n) + 1)%Qc.
Proof. rewrite Nat2Z.inj_succ, <- Z.add_1_r. apply QcZ_add. Qed.

Lemma QcZ_nonzero (z : Z) : z <> 0 -> QcZ z <> 0%Qc.
Proof.
  intros Hz E. apply Hz. apply Q2Qc_eq_iff in E.
  unfold Qeq in E; simpl in E. lia.
Qed.

Lemma fsum_Fin (qs : list Qc) : fsum (map Fin qs) = Fin (Qcsum qs).
Proof.
  induction qs as [|q qs IH]; [reflexivity|].
  unfold fsum in *; simpl. by rewrite IH.
Qed.

Lemma finite_list (v : list float64) :
  Forall is_finite v -> exists qs, v = map Fin qs.
Proof.
  induction 1 as [|x v Hx _ [qs ->]]; [by exists []|].
  destruct x as [q| | |]; try done. by exists (q :: qs).
Qed.

Lemma filled0_clean (l : list float64) :
  zip_with (fun x (b : bool) => if b then fzero else x) l
           (replicate (length l) false) = l.
Proof. induction l as [|x l IH]; simpl; [done|]. by rewrite IH. Qed.

Lemma filled0_exclude (i : nat) (qs : list Qc) :
  filled0 (exclude i (map Fin qs)) = map Fin (<[i := 0%Qc]> qs).
Proof.
  unfold filled0, exclude; simpl. rewrite length_map.
  revert i. induction qs as [|q qs IH]; intros i; [done|].
  destruct i as [|i]; simpl.
  - f_equal. rewrite <- (length_map Fin qs). apply filled0_clean.
  - f_equal. apply IH.
Qed.

Lemma Qcsum_insert_zero (i : nat) (qs : list Qc) (q : Qc) :
  qs !! i = Some q -> Qcsum (<[i := 0%Qc]> qs) = (Qcsum qs - q)%Qc.
Proof.
  revert i. induction qs as [|p qs IH]; intros i Hi; [done|].
  destruct i as [|i]; simpl in *.
  - injection Hi as ->. ring.
  - rewrite (IH i Hi). ring.
Qed.

Lemma count_clean (n : nat) :
  length (filter (fun b : bool => b = false) (replicate n false)) = n.
Proof.
  induction n as [|n IH]; [done|]. cbn [replicate].
  rewrite filter_cons_True by done. simpl. by rewrite IH.
Qed.

Lemma count_exclude (i n : nat) :
  (i < n)%nat ->
  length (filter (fun b : bool => b = false)
            (<[i := true]> (replicate n false))) = (n - 1)%nat.
Proof.
  revert i. induction n as [|n IH]; intros i Hi; [lia|].
  destruct i as [|i]; cbn [replicate].
  - cbn [insert list_insert]. rewrite filter_cons_False by done.
    rewrite count_clean. lia.
  - cbn [insert list_insert]. rewrite filter_cons_True by done. simpl.
    rewrite IH by lia. lia.
Qed.

Lemma ma_count_exclude (i : nat) (v : list float64) :
  (i < length v)%nat -> ma_count (exclude i v) = (length v - 1)%nat.
Proof. intros Hi. unfold ma_count, exclude; simpl. by apply count_exclude. Qed.

(** The replicate of the mean with entry [i] left out. *)
Lemma np_mean_exclude (i : nat) (qs : list Qc) (q : Qc) :
  (2 <= length qs)%nat -> qs !! i = Some q ->
  np_mean [exclude i (map Fin qs)] =
  Fin ((Qcsum qs - q) / QcZ (Z.of_nat (length qs - 1)))%Qc.
Proof.
  intros Hn Hi. unfold np_mean, ma_mean.
  assert (i < length qs)%nat as Hlt by (by eapply lookup_lt_Some).
  rewrite ma_count_exclude by (by rewrite length_map).
  rewrite length_map.
  destruct (Nat.eqb_spec (length qs - 1) 0) as [E|_]; [lia|].
  rewrite filled0_exclude, fsum_Fin, (Qcsum_insert_zero i qs q Hi).
  apply fdiv_Fin_of_Z_nonzero. lia.
Qed.

Lemma map_seq_lookup {A B} (f : nat -> B) (g : A -> B) (l : list A) (k : nat) :
  (forall i x, l !! i = Some x -> f (k + i)%nat = g x) ->
  map f (seq k (length l)) = map g l.
Proof.
  revert k. induction l as [|x l IH]; intros k H; [done|]. simpl. f_equal.
  - rewrite <- (H 0%nat x eq_refl). f_equal. lia.
  - apply IH. intros i y Hi. rewrite <- (H (S i) y Hi). f_equal. lia.
Qed.

Lemma Qcsum_leave_one_out (S d : Qc) (qs : list Qc) :
  Qcsum (map (fun q => (S - q) / d)%Qc qs) =
  ((QcZ (Z.of_nat (length qs)) * S - Qcsum qs) / d)%Qc.
Proof.
  induction qs as [|q qs IH].
  - simpl. unfold Qcdiv. change (QcZ (Z.of_nat 0)) with 0%Qc. ring.
  - cbn [map Qcsum foldr length].
    fold (Qcsum (map (fun q => (S - q) / d)%Qc qs)).
    fold (Qcsum qs). rewrite IH, QcZ_succ. unfold Qcdiv. ring.
Qed.

(** The mean of the leave-one-out means is the mean. *)
Lemma mean_of_replicates (qs : list Qc) :
  (2 <= length qs)%nat ->
  fmean (map (fun i => np_mean [exclude i (map Fin qs)])
             (seq 0 (length qs))) =
  fmean (map Fin qs).
Proof.
  intros Hn.
  set (d := QcZ (Z.of_nat (length qs - 1))).
  rewrite (map_seq_lookup _ (fun q => Fin ((Qcsum qs - q) / d)%Qc));
    [|intros i q Hi; by apply np_mean_exclude].
  subst d. unfold fmean. rewrite <- (map_map _ Fin), !fsum_Fin, !length_map.
  rewrite Qcsum_leave_one_out. do 2 f_equal.
  set (S := Qcsum qs).
  assert (QcZ (Z.of_nat (length qs)) = QcZ (Z.of_nat (length qs - 1)) + 1)%Qc
    as ->.
  { rewrite <- QcZ_succ. do 2 f_equal. lia. }
  field. apply QcZ_nonzero. lia.
Qed.

(** *** Entries that are not finite *)

Lemma join_comm a b : join a b = join b a.
Proof. by destruct a, b. Qed.

Lemma join_assoc a b c : join a (join b c) = join (join a b) c.
Proof. by destruct a, b, c. Qed.

Lemma join_idemp a : join a a = a.
Proof. by destruct a. Qed.

Lemma kle_refl a : kle a a.
Proof. apply join_idemp. Qed.

Lemma kle_trans a b c : kle a b -> kle b c -> kle a c.
Proof. unfold kle. destruct a, b, c; simpl; congruence. Qed.

Lemma kle_antisym a b : kle a b -> kle b a -> a = b.
Proof. unfold kle. destruct a, b; simpl; congruence. Qed.

Lemma kle_join_l a b : kle a (join a b).
Proof. unfold kle. by rewrite join_assoc, join_idemp. Qed.

Lemma kle_join_r a b : kle b (join a b).
Proof. rewrite join_comm. apply kle_join_l. Qed.

Lemma join_lub a b c : kle a c -> kle b c -> kle (join a b) c.
Proof. unfold kle. destruct a, b, c; simpl; congruence. Qed.

Lemma kle_fin a : kle KFin a.
Proof. by destruct a. Qed.

Lemma kle_joins_lookup (l : list kind) (j : nat) (a : kind) :
  l !! j = Some a -> kle a (joins l).
Proof.
  revert j. induction l as [|b l IH]; intros j Hj; [done|].
  destruct j as [|j]; simpl in *.
  - injection Hj as ->. apply kle_join_l.
  - eapply kle_trans; [by eapply IH|]. apply kle_join_r.
Qed.

Lemma joins_lub (l : list kind) (c : kind) :
  Forall (fun a => kle a c) l -> kle (joins l) c.
Proof.
  induction 1 as [|a l Ha _ IH]; simpl; [apply kle_fin|].
  by apply join_lub.
Qed.

(** Leaving out each entry in turn loses none, when there are two at least. *)
Lemma joins_leave_one_out (c : list kind) :
  (2 <= length c)%nat ->
  joins (map (fun i => joins (<[i := KFin]> c)) (seq 0 (length c))) = joins c.
Proof.
  intros Hn. apply kle_antisym.
  - apply joins_lub, Forall_forall. intros a Ha.
    apply list_elem_of_In, in_map_iff in Ha as (i & <- & _).
    apply joins_lub, Forall_forall. intros a Ha.
    apply list_elem_of_lookup in Ha as [j Hj].
    destruct (decide (i = j)) as [->|Hij].
    + apply list_lookup_insert_Some in Hj as [(_ & <- & _)|(? & _)]; [|done].
      apply kle_fin.
    + rewrite list_lookup_insert_ne in Hj by done.
      by eapply kle_joins_lookup.
  - apply joins_lub, Forall_forall. intros a Ha.
    apply list_elem_of_lookup in Ha as [j Hj].
    assert (j < length c)%nat as Hlt by (by eapply lookup_lt_Some).
    (* an iteration other than [j] *)
    set (i := if decide (j = 0)%nat then 1%nat else 0%nat).
    assert (i <> j /\ i < length c)%nat as [Hij Hi].
    { unfold i. destruct (decide (j = 0%nat)); lia. }
    eapply kle_trans; [|eapply (kle_joins_lookup _ i)].
    + eapply (kle_joins_lookup _ j). by rewrite list_lookup_insert_ne.
    + rewrite lookup_map, lookup_seq_lt by done. reflexivity.
Qed.

Lemma kind_of_fadd x y : kind_of (fadd x y) = join (kind_of x) (kind_of y).
Proof. by destruct x, y. Qed.

Lemma kind_of_fsum (l : list float64) :
  kind_of (fsum l) = joins (map kind_of l).
Proof.
  induction l as [|x l IH]; [done|].
  unfold fsum in *; simpl. by rewrite kind_of_fadd, IH.
Qed.

Lemma kind_of_fdiv_pos (x : float64) (k : Z) :
  0 < k -> kind_of (fdiv x (of_Z k)) = kind_of x.
Proof.
  intros Hk. destruct x as [q| | |]; try done.
  - rewrite fdiv_Fin_of_Z_nonzero by lia. done.
  - unfold of_Z, of_Q; simpl. rewrite sgn_of_Z.
    by destruct (Z.compare_spec k 0); try lia.
  - unfold of_Z, of_Q; simpl. rewrite sgn_of_Z.
    by destruct (Z.compare_spec k 0); try lia.
Qed.

Lemma kind_of_inj (x y : float64) :
  kind_of x = kind_of y -> kind_of x <> KFin -> x = y.
Proof. by destruct x, y. Qed.

Lemma joins_fin (l : list float64) :
  joins (map kind_of l) = KFin -> Forall is_finite l.
Proof.
  induction l as [|x l IH]; simpl; [done|]. intros H.
  destruct x; simpl in *; try (by destruct (joins (map kind_of l))).
  constructor; [done|]. apply IH. by destruct (joins (map kind_of l)).
Qed.

Lemma filled0_exclude_any (i : nat) (v : list float64) :
  filled0 (exclude i v) = <[i := fzero]> v.
Proof.
  unfold filled0, exclude; simpl.
  revert i. induction v as [|x v IH]; intros i; [done|].
  destruct i as [|i]; simpl.
  - f_equal. apply filled0_clean.
  - f_equal. apply IH.
Qed.

Lemma kind_of_np_mean_exclude (i : nat) (v : list float64) :
  (2 <= length v)%nat -> (i < length v)%nat ->
  kind_of (np_mean [exclude i v]) = joins (<[i := KFin]> (map kind_of v)).
Proof.
  intros Hn Hi. unfold np_mean, ma_mean.
  rewrite ma_count_exclude by done.
  destruct (Nat.eqb_spec (length v - 1) 0) as [E|_]; [lia|].
  rewrite kind_of_fdiv_pos by lia.
  rewrite filled0_exclude_any, kind_of_fsum.
  f_equal. change (@map) with (@fmap list _). by rewrite list_fmap_insert.
Qed.

(** The mean of the leave-one-out means is the mean, whatever the
    entries. *)
Lemma mean_of_replicates_any (v : list float64) :
  (2 <= length v)%nat ->
  fmean (map (fun i => np_mean [exclude i v]) (seq 0 (length v))) = fmean v.
Proof.
  intros Hn.
  assert (joins (map kind_of v) = KFin \/ joins (map kind_of v) <> KFin)
    as [E|E] by (destruct (joins (map kind_of v)); auto).
  - destruct (finite_list v (joins_fin v E)) as [qs ->].
    rewrite length_map in Hn |- *. by apply mean_of_replicates.
  - apply kind_of_inj.
    + unfold fmean. rewrite length_map, length_seq.
      rewrite !kind_of_fdiv_pos, !kind_of_fsum by lia.
      rewrite map_map.
      rewrite (map_ext_in _ (fun i => joins (<[i := KFin]> (map kind_of v)))).
      * rewrite <- (length_map kind_of v). apply joins_leave_one_out.
        by rewrite length_map.
      * intros i Hi%in_seq. apply kind_of_np_mean_exclude; [done|lia].
    + unfold fmean at 1. rewrite length_map, length_seq.
      rewrite kind_of_fdiv_pos, kind_of_fsum by lia.
      rewrite map_map.
      rewrite (map_ext_in _ (fun i => joins (<[i := KFin]> (map kind_of v)))).
      * rewrite <- (length_map kind_of v) at 1.
        rewrite joins_leave_one_out by (by rewrite length_map). done.
      * intros i Hi%in_seq. apply kind_of_np_mean_exclude; [done|lia].
Qed.

(** *** The result of [jackknife] *)

Local Arguments jackknife_run : simpl never.
Local Arguments fmean : simpl never.
Local Arguments fsum : simpl never.

Section JackknifeSpec.
Variable sqrt : float64 -> float64.

Lemma jackknife_equal_length (values : jk_values) (statistic : jk_statistic)
    (n : nat) :
  equal_length values n -> (0 < n)%nat ->
  let vj := map (fun i => statistic (map (exclude i) (series values)))
                (seq 0 n) in
  jackknife sqrt values statistic =
  inr (fmean vj, spec_se sqrt n (fmean vj) vj, vj).
Proof.
  intros Hn Hpos vj. unfold jackknife.
  rewrite (jackknife_run_equal_length values statistic n Hn). simpl.
  unfold py_truediv. destruct (Z.eqb_spec (Z.of_nat n) 0) as [E|_]; [lia|].
  reflexivity.
Qed.

(** With no entry at all [(n - 1) / n] divides by zero. *)
Lemma jackknife_empty (statistic : jk_statistic) :
  jackknife sqrt (Single []) statistic = inl ZeroDivisionError.
Proof. reflexivity. Qed.

End JackknifeSpec.

(** *** The jackknife with and without rounding *)

(** Without rounding the generic [np.mean] and the generic [jackknife] are
    those of module [Admixture]. *)
Lemma np_mean_exact (sqrt : float64 -> float64) (i : nat) (v : list float64) :
  Generic.np_mean (exact_ops sqrt) [Generic.exclude i v] =
  np_mean [exclude i v].
Proof. reflexivity. Qed.

Lemma jackknife_generic_exact (sqrt : float64 -> float64) (v : list float64) :
  Generic.jackknife (exact_ops sqrt) (Generic.Single v)
    (Generic.np_mean (exact_ops sqrt)) =
  jackknife sqrt (Single v) np_mean.
Proof.
  destruct v as [|x v]; [reflexivity|].
  rewrite (GenericFacts.generic_jackknife_equal_length _ _ _ (length (x :: v)));
    [|split; [done|by repeat constructor]|simpl; lia].
  rewrite (jackknife_equal_length sqrt _ _ (length (x :: v)));
    [|split; [done|by repeat constructor]|simpl; lia].
  reflexivity.
Qed.

Lemma jackknife_mean_exact (sqrt : float64 -> float64) (v : list float64) :
  (2 <= length v)%nat ->
  exists (se : float64) (vj : list float64),
    Generic.jackknife (exact_ops sqrt) (Generic.Single v)
      (Generic.np_mean (exact_ops sqrt)) = inr (fmean v, se, vj).
Proof.
  intros Hn.
  rewrite (GenericFacts.generic_jackknife_equal_length _ _ _ (length v));
    [|split; [done|by repeat constructor]|lia].
  cbv zeta. eexists _, _. do 3 f_equal.
  rewrite <- (mean_of_replicates_any v Hn). reflexivity.
Qed.

(** C1: on a series, or a tuple of series, of one length [n >= 2],
    [jackknife] returns [n] replicates [vj], replicate [i] being the
    statistic with entry [i] excluded, their mean [m], and
    [se = sqrt(((n - 1) / n) * sum((vj_i - m)^2))], in binary64 as in any
    arithmetic; when the statistic is the mean of one series, [m] is the
    mean of that series in the arithmetic without rounding. *)
Theorem jackknife_spec {F : Type} (ops : float_ops F)
    (values : Generic.jk_values F) (statistic : Generic.jk_statistic F)
    (n : nat) :
  Generic.equal_length values n -> (2 <= n)%nat ->
  (exists (m se : F) (vj : list F),
     Generic.jackknife ops values statistic = inr (m, se, vj) /\
     length vj = n /\
     (forall i, (i < n)%nat ->
        vj !! i = Some (statistic (map (Generic.exclude i)
                                       (Generic.series values)))) /\
     m = Generic.mean ops vj /\
     se = Generic.spec_se ops n m vj) /\
  (forall (sqrt : float64 -> float64) (v : list float64),
     length v = n ->
     exists (m se : float64) (vj : list float64),
       Generic.jackknife (exact_ops sqrt) (Generic.Single v)
         (Generic.np_mean (exact_ops sqrt)) = inr (m, se, vj) /\
       m = fmean v).
Proof.
  intros Hn H2. split.
  - eexists _, _, _.
    split; [apply GenericFacts.generic_jackknife_equal_length; [done|lia]|].
    split; [by rewrite length_map, length_seq|].
    split; [|done].
    intros i Hi. by rewrite lookup_map, lookup_seq_lt.
  - intros sqrt v Hv. subst n.
    destruct (jackknife_mean_exact sqrt v H2) as (se & vj & H).
    by exists (fmean v), se, vj.
Qed.

Lemma jackknife_spec_witness :
  (exists (m se : Binary64.binary64) (vj : list Binary64.binary64),
     Generic.jackknife (binary64_ops Binary64.sum_from_first)
       (Generic.Single series3)
       (Generic.np_mean (binary64_ops Binary64.sum_from_first)) =
       inr (m, se, vj) /\
     length vj = 3%nat /\
     (forall i, (i < 3)%nat ->
        vj !! i =
        Some (Generic.np_mean (binary64_ops Binary64.sum_from_first)
                (map (Generic.exclude i)
                     (Generic.series (Generic.Single series3))))) /\
     m = Generic.mean (binary64_ops Binary64.sum_from_first) vj /\
     se = Generic.spec_se (binary64_ops Binary64.sum_from_first) 3 m vj) /\
  (forall (sqrt : float64 -> float64) (v : list float64),
     length v = 3%nat ->
     exists (m se : float64) (vj : list float64),
       Generic.jackknife (exact_ops sqrt) (Generic.Single v)
         (Generic.np_mean (exact_ops sqrt)) = inr (m, se, vj) /\
       m = fmean v).
Proof.
  apply (jackknife_spec (binary64_ops Binary64.sum_from_first)
           (Generic.Single series3)
           (Generic.np_mean (binary64_ops Binary64.sum_from_first)) 3).
  - split; [discriminate|]. repeat constructor.
  - lia.
Defined.

(** In binary64 the mean of the leave-one-out means of [0.5, 0.2, 1.0] is
    0.5666666666666668 and the mean of the series is 0.5666666666666667,
    whether the sums start at the first or at the last entry. *)
Lemma jackknife_sample_mean_counterexample :
  (exists (m se : Binary64.binary64) (vj : list Binary64.binary64),
     Generic.jackknife (binary64_ops Binary64.sum_from_first)
       (Generic.Single series3)
       (Generic.np_mean (binary64_ops Binary64.sum_from_first)) =
       inr (m, se, vj) /\
     m = m_series3 /\
     Generic.mean (binary64_ops Binary64.sum_from_first) series3 =
       mean_series3 /\
     m <> Generic.mean (binary64_ops Binary64.sum_from_first) series3) /\
  (exists (m se : Binary64.binary64) (vj : list Binary64.binary64),
     Generic.jackknife (binary64_ops Binary64.sum_from_last)
       (Generic.Single series3)
       (Generic.np_mean (binary64_ops Binary64.sum_from_last)) =
       inr (m, se, vj) /\
     m = m_series3 /\
     Generic.mean (binary64_ops Binary64.sum_from_last) series3 =
       mean_series3 /\
     m <> Generic.mean (binary64_ops Binary64.sum_from_last) series3).
Proof.
  split; eexists _, _, _;
    (split; [by vm_compute|]); (split; [reflexivity|]);
    (split; [by vm_compute|]); by vm_compute.
Qed.

Lemma series4_equal_length : equal_length (Single series4) 4.
Proof. split; [done|]. by repeat constructor. Qed.

Lemma jackknife_masking_isolation_witness :
  (forall i vj, (i < 4)%nat ->
     jackknife_step np_mean i (map ma_asarray (series (Single series4)), vj) =
     inr (map ma_asarray (series (Single series4)),
          vj ++ [np_mean (map (exclude i) (series (Single series4)))])) /\
  exists (masked_values : list masked_array) (vj : list float64),
    jackknife_run (Single series4) np_mean = inr (4%nat, (masked_values, vj)) /\
    map data masked_values = series (Single series4) /\
    Forall (fun m => Forall (fun b => b = false) (mask m)) masked_values /\
    vj = map (fun i => np_mean (map (exclude i) (series (Single series4))))
             (seq 0 4).
Proof.
  apply (jackknife_masking_isolation (Single series4) np_mean 4).
  split; [discriminate|]. repeat constructor.
Defined.


End JackknifeFacts.

(** * Facts about the blockwise wrapper *)

Module BlockwiseFacts.
Import Admixture Spec ListFacts Float64Facts.
Import EstimatorFacts JackknifeFacts Examples.

Local Arguments fmean : simpl never.
Local Arguments fsum : simpl never.

(** *** Blocks *)

Lemma length_moving_statistic (values : list float64)
    (statistic : list float64 -> float64) (size : nat) :
  length (moving_statistic values statistic size) =
  (length values / size)%nat.
Proof. unfold moving_statistic. by rewrite length_map, length_seq. Qed.

Lemma lookup_moving_statistic (values : list float64)
    (statistic : list float64 -> float64) (size k : nat) :
  (k < length values / size)%nat ->
  moving_statistic values statistic size !! k =
  Some (statistic (block size k values)).
Proof.
  intros Hk. unfold moving_statistic.
  by rewrite lookup_map, lookup_seq_lt.
Qed.

Lemma length_block (blen k : nat) (l : list float64) :
  (0 < blen)%nat -> (k < length l / blen)%nat ->
  length (block blen k l) = blen.
Proof.
  intros Hb Hk. unfold block. rewrite length_take, length_drop.
  pose proof (Nat.div_mod_eq (length l) blen) as Hdiv.
  nia.
Qed.

Lemma patterson_d_lengths (aca acb acc acd : array2) (n : nat) :
  biallelic aca -> biallelic acb -> biallelic acc -> biallelic acd ->
  shape0 aca = n -> shape0 acb = n -> shape0 acc = n -> shape0 acd = n ->
  exists num den : list float64,
    patterson_d aca acb acc acd = inr (num, den) /\
    length num = n /\ length den = n.
Proof.
  intros Ha Hb Hc Hd Hna Hnb Hnc Hnd.
  rewrite (patterson_d_checked aca acb acc acd)
    by (try apply Ha; try apply Hb; try apply Hc; try apply Hd; congruence).
  cbv zeta. eexists _, _. split; [reflexivity|].
  rewrite !to_frequencies_biallelic by done.
  rewrite !length_zip_with, !length_map. unfold shape0 in *. lia.
Qed.

Section Blockwise.
Variable sqrt : float64 -> float64.

(** With no variant there is no block, and the jackknife divides by zero. *)
Lemma blockwise_patterson_d_empty (blen : nat) :
  blockwise_patterson_d sqrt no_variants no_variants no_variants no_variants
    blen = inl ZeroDivisionError.
Proof. by destruct blen. Qed.

(** C9: on four biallelic arrays of [n > 0] variants and a block length
    [blen > 0] that divides [n], [blockwise_patterson_d] returns, and [vb]
    and [vj] have [n / blen] values each; entry [k] of [vb] is the NaN-aware
    sum of the numerators over the NaN-aware sum of the denominators of
    block [k], which has [blen] variants. *)
Theorem blockwise_patterson_d_blocks (aca acb acc acd : array2)
    (blen n : nat) :
  biallelic aca -> biallelic acb -> biallelic acc -> biallelic acd ->
  shape0 aca = n -> shape0 acb = n -> shape0 acc = n -> shape0 acd = n ->
  (0 < n)%nat -> (0 < blen)%nat -> Nat.divide blen n ->
  exists (num den : list float64) (m se z : float64) (vb vj : list float64),
    patterson_d aca acb acc acd = inr (num, den) /\
    blockwise_patterson_d sqrt aca acb acc acd blen = inr (m, se, z, vb, vj) /\
    length vb = (n / blen)%nat /\
    length vj = (n / blen)%nat /\
    forall k, (k < n / blen)%nat ->
      length (block blen k num) = blen /\
      length (block blen k den) = blen /\
      vb !! k = Some (fdiv (nansum (block blen k num))
                           (nansum (block blen k den))).
Proof.
  intros Ha Hb Hc Hd Hna Hnb Hnc Hnd Hn Hblen [c Hc'].
  destruct (patterson_d_lengths aca acb acc acd n)
    as (num & den & Hpd & Hnum & Hden); try done.
  assert (n / blen = c)%nat as Hdiv by (rewrite Hc'; apply Nat.div_mul; lia).
  assert (0 < c)%nat as Hcpos by nia.
  exists num, den. unfold blockwise_patterson_d. rewrite Hpd. simpl.
  rewrite (jackknife_equal_length sqrt _ ratio_of_sums c); [|split|done].
  - simpl. eexists _, _, _, _, _. split; [reflexivity|]. split; [reflexivity|].
    rewrite length_zip_with, !length_moving_statistic, length_map, length_seq.
    rewrite Hnum, Hden, Hdiv. split; [lia|]. split; [done|].
    intros k Hk.
    rewrite !length_block by (rewrite ?Hnum, ?Hden, ?Hdiv; done).
    split; [done|]. split; [done|].
    rewrite lookup_zip_with, !lookup_moving_statistic
      by (rewrite ?Hnum, ?Hden, ?Hdiv; done).
    reflexivity.
  - done.
  - simpl. repeat constructor;
      rewrite length_moving_statistic, ?Hnum, ?Hden; done.
Qed.

End Blockwise.

Lemma blockwise_patterson_d_blocks_witness :
  exists (num den : list float64) (m se z : float64) (vb vj : list float64),
    patterson_d blocks_a blocks_b blocks_c blocks_d = inr (num, den) /\
    blockwise_patterson_d sqrt_id blocks_a blocks_b blocks_c blocks_d 2 =
      inr (m, se, z, vb, vj) /\
    length vb = (4 / 2)%nat /\
    length vj = (4 / 2)%nat /\
    forall k, (k < 4 / 2)%nat ->
      length (block 2 k num) = 2%nat /\
      length (block 2 k den) = 2%nat /\
      vb !! k = Some (fdiv (nansum (block 2 k num))
                           (nansum (block 2 k den))).
Proof.
  apply (blockwise_patterson_d_blocks sqrt_id
           blocks_a blocks_b blocks_c blocks_d 2 4);
    try reflexivity; try lia;
    try (split; [reflexivity|]; repeat constructor).
  exists 2%nat. reflexivity.
Defined.

End BlockwiseFacts.

(** * Further facts about allel/gt.py *)

Module GtMoreFacts.
Import Gt Spec GtShape Examples.

(** *** Arrays of calls *)

Lemma calls_ext {A B} (f g : A -> B) (a : list (list A)) :
  (forall c, f c = g c) -> map (map f) a = map (map g) a.
Proof.
  intros H. induction a as [|r a IH]; simpl; [done|]. rewrite IH. f_equal.
  induction r as [|c r IHr]; simpl; [done|]. by rewrite IHr, H.
Qed.

Lemma calls_ext_Forall {A B} (P : A -> Prop) (f g : A -> B)
    (a : list (list A)) :
  Forall (Forall P) a -> (forall c, P c -> f c = g c) ->
  map (map f) a = map (map g) a.
Proof.
  intros Ha H. induction Ha as [|r a Hr _ IH]; simpl; [done|].
  rewrite IH. f_equal.
  induction Hr as [|c r Hc _ IHr]; simpl; [done|]. by rewrite IHr, H.
Qed.

Lemma calls_map_map {A B C} (f : B -> C) (g : A -> B) (a : list (list A)) :
  map (map f) (map (map g) a) = map (map (fun c => f (g c))) a.
Proof.
  induction a as [|r a IH]; simpl; [done|]. by rewrite IH, map_map.
Qed.

Lemma calls_zip {A B C D} (F : B -> C -> D) (g : A -> B) (h : A -> C)
    (a : list (list A)) :
  zip_with (zip_with F) (map (map g) a) (map (map h) a) =
  map (map (fun c => F (g c) (h c))) a.
Proof.
  induction a as [|r a IH]; simpl; [done|]. rewrite IH. f_equal.
  induction r as [|c r IHr]; simpl; [done|]. by rewrite IHr.
Qed.

Lemma samples_calls {A B} (f : A -> B) (a : list (list A)) :
  map length (map (map f) a) = map length a.
Proof.
  induction a as [|r a IH]; simpl; [done|]. by rewrite IH, length_map.
Qed.

(** Bring nested maps and zips over one array to a single map per call. *)
Ltac calls :=
  unfold ret; repeat first [rewrite calls_map_map | rewrite calls_zip].

(** Run a predicate on a 3-D array of known ploidy, or on a 2-D array. *)
Ltac run_predicate f :=
  unfold f, np_all_axis2, np_any_axis2; simpl; calls.

(** X1: an array that has neither two nor three dimensions is rejected by
    every predicate, with an [ArgumentError] that names the number of
    dimensions found. *)
Theorem predicates_reject_other_dimensions (g : ndarray Z) :
  ndim g <> 2%nat -> ndim g <> 3%nat ->
  let e : result (ndarray bool) :=
    inl (ArgumentError
           ("expected 2 or 3 dimensions, found " +:+ pretty (ndim g))) in
  is_called g = e /\ is_missing g = e /\ is_hom g = e /\ is_het g = e /\
  is_hom_ref g = e /\ is_hom_alt g = e.
Proof.
  intros H2 H3. by destruct g.
Qed.

Lemma predicates_reject_other_dimensions_witness :
  let e : result (ndarray bool) :=
    inl (ArgumentError "expected 2 or 3 dimensions, found 1") in
  is_called g_one_dimension = e /\ is_missing g_one_dimension = e /\
  is_hom g_one_dimension = e /\ is_het g_one_dimension = e /\
  is_hom_ref g_one_dimension = e /\ is_hom_alt g_one_dimension = e.
Proof.
  apply (predicates_reject_other_dimensions g_one_dimension);
    simpl; lia.
Defined.

(** *** One call *)

Lemma het_call_diploid (a1 a2 : Z) :
  ge0 a1 && ge0 a2 && negb (a1 =? a2) =
  (ge0 a1 && ge0 a2) && negb (ge0 a1 && (a1 =? a2)).
Proof. by destruct (ge0 a1), (ge0 a2), (a1 =? a2). Qed.

Lemma all_others_cons (f : Z -> bool) (c : list Z) :
  forallb id (map f c) = forallb f c.
Proof. induction c as [|x c IH]; simpl; [done|]. by rewrite IH. Qed.

Lemma any_others (f : Z -> bool) (c : list Z) :
  existsb id (map f c) = existsb f c.
Proof. induction c as [|x c IH]; simpl; [done|]. by rewrite IH. Qed.

Lemma existsb_negb (f : Z -> bool) (c : list Z) :
  existsb (fun x => negb (f x)) c = negb (forallb f c).
Proof.
  induction c as [|x c IH]; simpl; [done|].
  by rewrite IH, negb_andb.
Qed.

Lemma forallb_and_const (b : bool) (f : Z -> bool) (c : list Z) :
  c <> [] -> forallb (fun x => b && f x) c = b && forallb f c.
Proof.
  induction c as [|x [|y c] IH]; intros Hc; [done| |].
  - simpl. by rewrite !andb_true_r.
  - change (forallb (fun x => b && f x) (x :: y :: c))
      with ((b && f x) && forallb (fun x => b && f x) (y :: c)).
    rewrite IH by done.
    change (forallb f (x :: y :: c)) with (f x && forallb f (y :: c)).
    by destruct b, (f x).
Qed.

(** All called and some allele differs from the first, against called and
    not all equal to a called first allele. *)
Lemma het_call_general (c : list Z) :
  forallb id (map ge0 c) &&
  existsb id (map (fun o => negb (nth 0 c 0 =? o)) (drop 1 c)) =
  forallb id (map ge0 c) &&
  negb (forallb id
          (map (fun o => ge0 (nth 0 c 0) && (nth 0 c 0 =? o)) (drop 1 c))).
Proof.
  rewrite !all_others_cons, any_others, existsb_negb.
  destruct c as [|a1 [|o c]]; [done|reflexivity|].
  rewrite (forallb_and_const (ge0 a1)) by done.
  cbn [nth drop]. change (forallb ge0 (a1 :: o :: c))
    with (ge0 a1 && forallb ge0 (o :: c)).
  by destruct (ge0 a1).
Qed.

(** X2: on an array of two dimensions, or of three with at least one
    allele per call, the heterozygous calls are the called ones that are
    not homozygous. *)
Theorem is_het_called_not_hom (g : ndarray Z) :
  genotype_array g -> (0 < ploidy_of g)%nat ->
  exists called hom het : ndarray bool,
    is_called g = inr called /\ is_hom g = inr hom /\ is_het g = inr het /\
    nd_zip_with andb called (nd_map negb hom) = inr het.
Proof.
  intros [Hd|Hd] Hp; destruct g as [x|a|a|ploidy a|extra]; simpl in Hd, Hp;
    try discriminate; try lia.
  - (* two dimensions *)
    eexists _, _, _. repeat split; try reflexivity.
    simpl. calls. do 2 f_equal. apply calls_ext. intros c.
    apply andb_false_r.
  - destruct ploidy as [|[|[|ploidy]]]; [lia| | |].
    + (* one allele per call *)
      eexists _, _, _. repeat split; try reflexivity.
      run_predicate is_het. do 2 f_equal. apply calls_ext. intros c.
      apply andb_false_r.
    + (* two *)
      eexists _, _, _. split; [reflexivity|]. split; [reflexivity|].
      split; [reflexivity|].
      run_predicate is_called. run_predicate is_het. run_predicate is_hom.
      simpl. calls. do 2 f_equal. apply calls_ext. intros c.
      symmetry. apply het_call_diploid.
    + (* three or more *)
      eexists _, _, _. split; [reflexivity|]. split; [reflexivity|].
      split; [reflexivity|].
      run_predicate is_called. run_predicate is_het. run_predicate is_hom.
      simpl. calls. do 2 f_equal. apply calls_ext. intros c.
      symmetry. apply het_call_general.
Qed.

Lemma is_het_called_not_hom_witness :
  exists called hom het : ndarray bool,
    is_called g_triploid = inr called /\ is_hom g_triploid = inr hom /\
    is_het g_triploid = inr het /\
    nd_zip_with andb called (nd_map negb hom) = inr het.
Proof.
  apply (is_het_called_not_hom g_triploid).
  - right. reflexivity.
  - simpl. lia.
Defined.

Ltac Z_cases :=
  unfold eq0, gt0, ge0;
  repeat match goal with
  | |- context [?x =? ?y] => destruct (Z.eqb_spec x y)
  | |- context [?x <? ?y] => destruct (Z.ltb_spec x y)
  | |- context [?x <=? ?y] => destruct (Z.leb_spec x y)
  end; simpl; try reflexivity; try lia.

Lemma hom_call_diploid (a1 a2 : Z) :
  eq0 a1 && eq0 a2 || gt0 a1 && (a1 =? a2) = ge0 a1 && (a1 =? a2).
Proof. Z_cases. Qed.

Lemma hom_ref_alt_call_diploid (a1 a2 : Z) :
  (eq0 a1 && eq0 a2) && (gt0 a1 && (a1 =? a2)) = false.
Proof. Z_cases. Qed.

Lemma forallb_ext_Z (f g : Z -> bool) (c : list Z) :
  (forall x, f x = g x) -> forallb f c = forallb g c.
Proof.
  intros H. induction c as [|x c IH]; simpl; [done|]. by rewrite IH, H.
Qed.

Lemma hom_call_general (c : list Z) :
  forallb id (map eq0 c) ||
  forallb id (map (fun o => gt0 (nth 0 c 0) && (nth 0 c 0 =? o)) (drop 1 c)) =
  forallb id (map (fun o => ge0 (nth 0 c 0) && (nth 0 c 0 =? o)) (drop 1 c)).
Proof.
  rewrite !all_others_cons.
  destruct c as [|a1 [|o c]]; [done|by rewrite orb_true_r|].
  rewrite (forallb_and_const (gt0 a1)), (forallb_and_const (ge0 a1)) by done.
  cbn [nth drop]. change (forallb eq0 (a1 :: o :: c))
    with (eq0 a1 && forallb eq0 (o :: c)).
  destruct (Z.eqb_spec a1 0) as [->|Hne].
  - replace (eq0 0) with true by done. replace (gt0 0) with false by done.
    replace (ge0 0) with true by done.
    rewrite !andb_true_l, andb_false_l, orb_false_r.
    apply forallb_ext_Z. intros x. unfold eq0. apply Z.eqb_sym.
  - replace (eq0 a1) with false by (unfold eq0; by destruct (Z.eqb_spec a1 0)).
    replace (gt0 a1) with (ge0 a1); [done|]. Z_cases.
Qed.

Lemma hom_ref_alt_call_general (c : list Z) :
  (2 <= length c)%nat ->
  forallb id (map eq0 c) &&
  forallb id (map (fun o => gt0 (nth 0 c 0) && (nth 0 c 0 =? o)) (drop 1 c)) =
  false.
Proof.
  rewrite !all_others_cons.
  destruct c as [|a1 [|o c]]; simpl length; [lia|lia|]. intros _.
  rewrite (forallb_and_const (gt0 a1)) by done.
  cbn [nth drop]. change (forallb eq0 (a1 :: o :: c))
    with (eq0 a1 && forallb eq0 (o :: c)).
  replace (eq0 a1 && forallb eq0 (o :: c) &&
           (gt0 a1 && forallb (Z.eqb a1) (o :: c)))
    with ((eq0 a1 && gt0 a1) &&
          (forallb eq0 (o :: c) && forallb (Z.eqb a1) (o :: c))).
  - replace (eq0 a1 && gt0 a1) with false; [done|]. Z_cases.
  - destruct (eq0 a1), (gt0 a1), (forallb eq0 (o :: c)); reflexivity.
Qed.

(** X3: on a 3-D array with two or more alleles per call, a call is
    homozygous exactly when it is homozygous for the reference allele or for
    an alternate allele, and it is never both of these. *)
Theorem is_hom_ref_or_alt (g : ndarray Z) :
  ndim g = 3%nat -> well_shaped g -> (2 <= ploidy_of g)%nat ->
  exists hom ref alt : ndarray bool,
    is_hom g = inr hom /\ is_hom_ref g = inr ref /\
    is_hom_alt g = inr alt /\
    nd_zip_with orb ref alt = inr hom /\
    nd_zip_with andb ref alt = inr (nd_map (fun _ => false) hom).
Proof.
  intros Hd Hw Hp; destruct g as [x|a|a|ploidy a|extra]; simpl in Hd, Hp;
    try discriminate.
  destruct ploidy as [|[|[|ploidy]]]; [lia|lia| |].
  - eexists _, _, _. split; [reflexivity|]. split; [reflexivity|].
    split; [reflexivity|].
    run_predicate is_hom. run_predicate is_hom_ref.
    run_predicate is_hom_alt. simpl. calls. split.
    + do 2 f_equal. apply calls_ext. intros c. apply hom_call_diploid.
    + do 2 f_equal. apply calls_ext. intros c.
      apply hom_ref_alt_call_diploid.
  - eexists _, _, _. split; [reflexivity|]. split; [reflexivity|].
    split; [reflexivity|].
    run_predicate is_hom. run_predicate is_hom_ref.
    run_predicate is_hom_alt. simpl. calls. split.
    + do 2 f_equal. apply calls_ext. intros c. apply hom_call_general.
    + do 2 f_equal. eapply calls_ext_Forall; [apply Hw|].
      intros c Hc. apply hom_ref_alt_call_general. rewrite Hc. lia.
Qed.

Lemma g_triploid_well_shaped : well_shaped g_triploid.
Proof. simpl. repeat constructor. Qed.

Lemma is_hom_ref_or_alt_witness :
  exists hom ref alt : ndarray bool,
    is_hom g_triploid = inr hom /\ is_hom_ref g_triploid = inr ref /\
    is_hom_alt g_triploid = inr alt /\
    nd_zip_with orb ref alt = inr hom /\
    nd_zip_with andb ref alt = inr (nd_map (fun _ => false) hom).
Proof.
  apply (is_hom_ref_or_alt g_triploid).
  - reflexivity.
  - simpl. repeat constructor.
  - simpl. lia.
Defined.

Lemma haploid_call (x : Z) : eq0 x || gt0 x = ge0 x.
Proof. Z_cases. Qed.

(** X4: on haploid calls (a 2-D array, or a 3-D array with one allele per
    call) [is_hom] is True and [is_het] False at every entry, at the missing
    ones too, while a call is homozygous for the reference or for an
    alternate allele exactly when it is called. *)
Theorem haploid_predicates (g : ndarray Z) :
  genotype_array g -> ploidy_of g = 1%nat ->
  exists called hom het ref alt : ndarray bool,
    is_called g = inr called /\ is_hom g = inr hom /\ is_het g = inr het /\
    is_hom_ref g = inr ref /\ is_hom_alt g = inr alt /\
    hom = nd_map (fun _ => true) called /\
    het = nd_map (fun _ => false) called /\
    nd_zip_with orb ref alt = inr called.
Proof.
  intros [Hd|Hd] Hp; destruct g as [x|a|a|ploidy a|extra]; simpl in Hd, Hp;
    try discriminate; subst.
  - eexists _, _, _, _, _. do 5 (split; [reflexivity|]).
    simpl. calls. repeat split. do 2 f_equal. apply calls_ext.
    intros c. apply haploid_call.
  - eexists _, _, _, _, _. do 5 (split; [reflexivity|]).
    simpl. calls. repeat split. do 2 f_equal. apply calls_ext.
    intros c. apply haploid_call.
Qed.

Lemma haploid_predicates_witness :
  exists called hom het ref alt : ndarray bool,
    is_called g_haploid = inr called /\ is_hom g_haploid = inr hom /\
    is_het g_haploid = inr het /\
    is_hom_ref g_haploid = inr ref /\ is_hom_alt g_haploid = inr alt /\
    hom = nd_map (fun _ => true) called /\
    het = nd_map (fun _ => false) called /\
    nd_zip_with orb ref alt = inr called.
Proof.
  apply (haploid_predicates g_haploid).
  - left. reflexivity.
  - reflexivity.
Defined.

Lemma hom_called_call_diploid (a1 a2 : Z) :
  (ge0 a1 && (a1 =? a2)) && (ge0 a1 && ge0 a2) = ge0 a1 && (a1 =? a2).
Proof. Z_cases. Qed.

Lemma all_equal_called (a1 : Z) (os : list Z) :
  ge0 a1 = true -> forallb (Z.eqb a1) os = true -> forallb ge0 os = true.
Proof.
  intros Ha. induction os as [|o os IH]; simpl; [done|].
  intros [Ho Hos]%andb_true_iff. apply Z.eqb_eq in Ho as <-.
  by rewrite Ha, IH.
Qed.

Lemma hom_called_call_general (c : list Z) :
  (2 <= length c)%nat ->
  forallb id (map (fun o => ge0 (nth 0 c 0) && (nth 0 c 0 =? o)) (drop 1 c)) &&
  forallb id (map ge0 c) =
  forallb id (map (fun o => ge0 (nth 0 c 0) && (nth 0 c 0 =? o)) (drop 1 c)).
Proof.
  rewrite !all_others_cons.
  destruct c as [|a1 [|o c]]; simpl length; [lia|lia|]. intros _.
  rewrite (forallb_and_const (ge0 a1)) by done.
  cbn [nth drop]. change (forallb ge0 (a1 :: o :: c))
    with (ge0 a1 && forallb ge0 (o :: c)).
  destruct (ge0 a1) eqn:Ha; [|done].
  destruct (forallb (Z.eqb a1) (o :: c)) eqn:He; [|done].
  by rewrite (all_equal_called a1 (o :: c) Ha He).
Qed.

(** X5: on a 3-D array with two or more alleles per call, a homozygous call
    is a called one: [is_hom] is never True where [is_called] is False. *)
Theorem is_hom_implies_is_called (g : ndarray Z) :
  ndim g = 3%nat -> well_shaped g -> (2 <= ploidy_of g)%nat ->
  exists hom called : ndarray bool,
    is_hom g = inr hom /\ is_called g = inr called /\
    nd_zip_with andb hom called = inr hom.
Proof.
  intros Hd Hw Hp; destruct g as [x|a|a|ploidy a|extra]; simpl in Hd, Hp;
    try discriminate.
  destruct ploidy as [|[|[|ploidy]]]; [lia|lia| |].
  - eexists _, _. split; [reflexivity|]. split; [reflexivity|].
    run_predicate is_hom. run_predicate is_called. simpl. calls.
    do 2 f_equal. apply calls_ext. intros c. apply hom_called_call_diploid.
  - eexists _, _. split; [reflexivity|]. split; [reflexivity|].
    run_predicate is_hom. run_predicate is_called. simpl. calls.
    do 2 f_equal. eapply calls_ext_Forall; [apply Hw|].
    intros c Hc. apply hom_called_call_general. rewrite Hc. lia.
Qed.

Lemma is_hom_implies_is_called_witness :
  exists hom called : ndarray bool,
    is_hom g_triploid = inr hom /\ is_called g_triploid = inr called /\
    nd_zip_with andb hom called = inr hom.
Proof.
  apply (is_hom_implies_is_called g_triploid).
  - reflexivity.
  - simpl. repeat constructor.
  - simpl. lia.
Defined.

(** X6: on a 3-D array with no allele per call, the predicates that read
    the first allele ([is_hom], [is_het], [is_hom_alt]) raise an
    [IndexError]; the others return, with every call called, none missing
    and every call homozygous for the reference. *)
Theorem no_allele_per_call (a : list (list (list Z))) :
  well_shaped (Nd3 0 a) ->
  is_hom (Nd3 0 a) = inl IndexError /\
  is_het (Nd3 0 a) = inl IndexError /\
  is_hom_alt (Nd3 0 a) = inl IndexError /\
  is_called (Nd3 0 a) = inr (Nd2 (map (map (fun _ => true)) a)) /\
  is_missing (Nd3 0 a) = inr (Nd2 (map (map (fun _ => false)) a)) /\
  is_hom_ref (Nd3 0 a) = inr (Nd2 (map (map (fun _ => true)) a)).
Proof.
  intros Hw. do 3 (split; [reflexivity|]).
  run_predicate is_called. run_predicate is_missing.
  run_predicate is_hom_ref.
  repeat split; do 2 f_equal; (eapply calls_ext_Forall; [apply Hw|]);
    intros c Hc; by apply nil_length_inv in Hc as ->.
Qed.

Lemma no_allele_per_call_witness :
  is_hom g_no_allele = inl IndexError /\
  is_het g_no_allele = inl IndexError /\
  is_hom_alt g_no_allele = inl IndexError /\
  is_called g_no_allele = inr (Nd2 [[true; true]; [true; true]]) /\
  is_missing g_no_allele = inr (Nd2 [[false; false]; [false; false]]) /\
  is_hom_ref g_no_allele = inr (Nd2 [[true; true]; [true; true]]).
Proof.
  apply (no_allele_per_call [[[]; []]; [[]; []]]).
  simpl. repeat constructor.
Defined.

(** X7: on an array of two dimensions, or of three with at least one
    allele per call, every predicate returns a 2-D array with one entry per
    call: as many rows as variants and, in each row, as many entries as
    samples. *)
Theorem predicates_shape (g : ndarray Z) :
  genotype_array g -> (0 < ploidy_of g)%nat ->
  Forall (fun predicate : ndarray Z -> result (ndarray bool) =>
            exists out, predicate g = inr out /\ ndim out = 2%nat /\
                        samples out = samples g)
         [is_called; is_missing; is_hom; is_het; is_hom_ref; is_hom_alt].
Proof.
  intros [Hd|Hd] Hp; destruct g as [x|a|a|ploidy a|extra]; simpl in Hd, Hp;
    try discriminate; try lia.
  - repeat constructor; eexists; (split; [reflexivity|]);
      (split; [reflexivity|]); simpl; by rewrite ?samples_calls.
  - destruct ploidy as [|[|[|ploidy]]]; [lia| | |].
    + repeat constructor; eexists; (split; [reflexivity|]);
        (split; [reflexivity|]); simpl; calls; by rewrite ?samples_calls.
    + repeat constructor; eexists; (split; [reflexivity|]);
        (split; [reflexivity|]); simpl; calls; by rewrite ?samples_calls.
    + repeat constructor; eexists; (split; [reflexivity|]);
        (split; [reflexivity|]); simpl; calls; by rewrite ?samples_calls.
Qed.

Lemma predicates_shape_witness :
  Forall (fun predicate : ndarray Z -> result (ndarray bool) =>
            exists out, predicate docstring_g = inr out /\
                        ndim out = 2%nat /\
                        samples out = samples docstring_g)
         [is_called; is_missing; is_hom; is_het; is_hom_ref; is_hom_alt].
Proof.
  apply (predicates_shape docstring_g).
  - right. reflexivity.
  - simpl. lia.
Defined.

(** The docstrings of [is_hom], [is_het], [is_hom_ref] and [is_hom_alt]. *)
Example is_hom_docstring :
  is_hom docstring_g =
  inr (Nd2 [[true; false]; [false; true]; [false; false]]).
Proof. reflexivity. Qed.

Example is_het_docstring :
  is_het docstring_g =
  inr (Nd2 [[false; true]; [true; false]; [true; false]]).
Proof. reflexivity. Qed.

Example is_hom_ref_docstring :
  is_hom_ref docstring_g2 =
  inr (Nd2 [[true; false]; [false; false]; [false; false]]).
Proof. reflexivity. Qed.

Example is_hom_alt_docstring :
  is_hom_alt docstring_g2 =
  inr (Nd2 [[false; false]; [false; true]; [true; false]]).
Proof. reflexivity. Qed.

End GtMoreFacts.

(** * Further facts about the estimators *)

Module EstimatorMoreFacts.
Import Admixture Spec MoreSpec ListFacts Float64Facts EstimatorFacts.
Import Aux Examples.

(** *** Ratios of integers *)

Lemma this_QcZ_div (n d : Z) :
  (this (QcZ n / QcZ d)%Qc == inject_Z n / inject_Z d)%Q.
Proof.
  unfold Qcdiv, Qcmult, Qcinv, QcZ, Q2Qc; simpl this.
  rewrite !Qred_correct. reflexivity.
Qed.

Lemma half_ratio_range (n d : Z) :
  0 <= n -> 0 < d -> 2 * n <= d ->
  (0 <= QcZ n / QcZ d)%Qc /\ (QcZ n / QcZ d <= Q2Qc (1 # 2))%Qc.
Proof.
  intros Hn Hd Hnd. unfold Qcle. rewrite this_QcZ_div.
  replace (this (Q2Qc 0)) with 0%Q by reflexivity.
  replace (this (Q2Qc (1 # 2))) with (1 # 2)%Q by reflexivity.
  destruct d as [|p|p]; try lia.
  unfold Qdiv, Qinv, Qle, Qmult; simpl. split; nia.
Qed.

(** *** The range of [h_hat] *)

(** X8: on a row of a biallelic array with no negative count, where the
    two products of [h_hat] fit their integer types, [h_hat] is nan when
    the allele number is 0 or 1, and otherwise a number between 0 and
    1/2. *)
Theorem h_hat_range (ac : array2) (i : nat) (r : list Z) :
  biallelic ac -> rows ac !! i = Some r -> 0 <= ref r -> 0 <= alt r ->
  products_fit (dtype ac) r ->
  exists x : list float64,
    h_hat ac = inr x /\
    (allele_number r <= 1 -> x !! i = Some NaN) /\
    (2 <= allele_number r ->
     exists q : Qc,
       x !! i = Some (Fin q) /\ (0 <= q)%Qc /\ (q <= Q2Qc (1 # 2))%Qc).
Proof.
  intros Hb Hi Hr Ha Hfit. exists (map (h_row (dtype ac)) (rows ac)).
  split; [by apply h_hat_biallelic|].
  assert (map (h_row (dtype ac)) (rows ac) !! i = Some (spec_h r)) as ->
    by (by rewrite lookup_map, Hi; simpl; rewrite h_row_exact).
  unfold spec_h, allele_number. cbv zeta. split.
  - intros Han.
    assert (ref r * alt r = 0) as -> by nia.
    assert ((ref r + alt r) * (ref r + alt r - 1) = 0) as -> by nia.
    reflexivity.
  - intros Han.
    assert (0 < (ref r + alt r) * (ref r + alt r - 1)) as Hd by nia.
    rewrite fdiv_of_Z_nonzero by lia.
    eexists. split; [reflexivity|].
    apply (half_ratio_range (ref r * alt r)); nia.
Qed.

Lemma h_hat_range_witness :
  exists x : list float64,
    h_hat pop1 = inr x /\
    (allele_number [3; 1] <= 1 -> x !! 0%nat = Some NaN) /\
    (2 <= allele_number [3; 1] ->
     exists q : Qc,
       x !! 0%nat = Some (Fin q) /\ (0 <= q)%Qc /\ (q <= Q2Qc (1 # 2))%Qc).
Proof.
  apply (h_hat_range pop1 0 [3; 1]).
  - split; [reflexivity|]. repeat constructor.
  - reflexivity.
  - unfold ref; simpl; lia.
  - unfold alt; simpl; lia.
  - split; by vm_compute.
Defined.

Local Arguments check_dim0_aligned : simpl never.
Local Arguments h_hat : simpl never.
Local Arguments to_frequencies : simpl never.
Local Arguments sum_axis1 : simpl never.
Local Arguments fmul : simpl never.
Local Arguments fadd : simpl never.
Local Arguments fsub : simpl never.
Local Arguments fneg : simpl never.
Local Arguments of_Z : simpl never.

(** X20: on a biallelic array with no negative count in which the two
    products of [h_hat] fit their integer types at every row, [h_hat]
    returns [(ref * alt) / (an * (an - 1))] for every row. *)
Theorem h_hat_where_products_fit (ac : array2) :
  biallelic ac -> nonneg ac ->
  Forall (products_fit (dtype ac)) (rows ac) ->
  exists x : list float64,
    h_hat ac = inr x /\
    length x = shape0 ac /\
    forall i r, rows ac !! i = Some r -> x !! i = Some (spec_h r).
Proof.
  intros Hb Hnn Hfit. exists (map (h_row (dtype ac)) (rows ac)).
  split; [by apply h_hat_biallelic|].
  split; [by rewrite length_map|].
  intros i r Hi. rewrite lookup_map, Hi. simpl. f_equal.
  pose proof (Forall_lookup_1 _ _ _ _ (biallelic_rows _ Hb) Hi) as Hlen.
  pose proof (Forall_lookup_1 _ _ _ _ Hnn Hi) as Hr.
  pose proof (Forall_lookup_1 _ _ _ _ Hfit Hi) as Hf.
  destruct r as [|x [|y [|z r]]]; try discriminate.
  apply Forall_cons in Hr as [Hx Hr]. apply Forall_cons in Hr as [Hy _].
  by apply h_row_exact.
Qed.

Lemma h_hat_where_products_fit_witness :
  exists x : list float64,
    h_hat two_variants = inr x /\
    length x = shape0 two_variants /\
    forall i r, rows two_variants !! i = Some r -> x !! i = Some (spec_h r).
Proof.
  apply (h_hat_where_products_fit two_variants).
  - split; [reflexivity|]. repeat constructor.
  - repeat constructor; lia.
  - repeat constructor; by vm_compute.
Defined.

(** *** Symmetries *)

Lemma fmul_fneg_r x y : fmul x (fneg y) = fneg (fmul x y).
Proof. by rewrite fmul_comm, fmul_fneg_l, fmul_comm. Qed.

Lemma zip_fmul_comm (x y : list float64) :
  zip_with fmul x y = zip_with fmul y x.
Proof.
  apply list_eq; intros i. rewrite !lookup_zip_with.
  destruct (x !! i) as [p|], (y !! i) as [q|]; simpl; try done.
  by rewrite fmul_comm.
Qed.

Lemma num_swap_r (x c d : list float64) :
  zip_with fmul x (zip_with fsub d c) =
  map fneg (zip_with fmul x (zip_with fsub c d)).
Proof.
  apply list_eq; intros i.
  rewrite lookup_map, !lookup_zip_with.
  destruct (x !! i) as [p|], (c !! i) as [q|], (d !! i) as [r|];
    simpl; try done.
  by rewrite (fsub_antisym r q), fmul_fneg_r.
Qed.

(** X10: on four biallelic arrays of one length, exchanging the last two
    populations of [patterson_d] negates the numerator and keeps the
    denominator, and exchanging the first pair with the last pair changes
    neither. *)
Theorem patterson_d_symmetries (aca acb acc acd : array2) :
  biallelic aca -> biallelic acb -> biallelic acc -> biallelic acd ->
  shape0 acb = shape0 aca -> shape0 acc = shape0 aca ->
  shape0 acd = shape0 aca ->
  exists num den : list float64,
    patterson_d aca acb acc acd = inr (num, den) /\
    patterson_d aca acb acd acc = inr (map fneg num, den) /\
    patterson_d acc acd aca acb = inr (num, den).
Proof.
  intros Ha Hb Hc Hd Hnb Hnc Hnd.
  rewrite (patterson_d_checked aca acb acc acd),
    (patterson_d_checked aca acb acd acc),
    (patterson_d_checked acc acd aca acb)
    by (try apply Ha; try apply Hb; try apply Hc; try apply Hd; congruence).
  cbv zeta. eexists _, _. split; [reflexivity|]. split.
  - by rewrite num_swap_r, (den_swap _ (fcol 1 (to_frequencies acd))).
  - f_equal. f_equal; apply zip_fmul_comm.
Qed.

Lemma patterson_d_symmetries_witness :
  exists num den : list float64,
    patterson_d pop1 pop2 pop3 pop4 = inr (num, den) /\
    patterson_d pop1 pop2 pop4 pop3 = inr (map fneg num, den) /\
    patterson_d pop3 pop4 pop1 pop2 = inr (num, den).
Proof.
  apply (patterson_d_symmetries pop1 pop2 pop3 pop4);
    try reflexivity; split; try reflexivity; repeat constructor.
Defined.

(** X11: on three biallelic arrays of one length, exchanging the two source
    populations of [patterson_f3] changes neither [T] nor [B]. *)
Theorem patterson_f3_sources_exchange (acc aca acb : array2) :
  biallelic acc -> biallelic aca -> biallelic acb ->
  shape0 acb = shape0 aca -> shape0 acc = shape0 aca ->
  exists T B : list float64,
    patterson_f3 acc aca acb = inr (T, B) /\
    patterson_f3 acc acb aca = inr (T, B).
Proof.
  intros Hc Ha Hb Hnb Hnc.
  rewrite (patterson_f3_biallelic acc aca acb),
    (patterson_f3_biallelic acc acb aca) by (done || congruence).
  cbv zeta. eexists _, _. split; [reflexivity|].
  do 3 f_equal. apply zip_fmul_comm.
Qed.

Lemma patterson_f3_sources_exchange_witness :
  exists T B : list float64,
    patterson_f3 pop3 pop1 pop2 = inr (T, B) /\
    patterson_f3 pop3 pop2 pop1 = inr (T, B).
Proof.
  apply (patterson_f3_sources_exchange pop3 pop1 pop2);
    try reflexivity; split; try reflexivity; repeat constructor.
Defined.

End EstimatorMoreFacts.

(** * Further facts about the jackknife *)

Module JackknifeMoreFacts.
Import Admixture Spec ListFacts Float64Facts Aux JackknifeFacts Examples.

Local Arguments jackknife_step : simpl never.
Local Arguments jackknife_loop : simpl nomatch.
Local Arguments jackknife_init : simpl never.
Local Arguments jackknife_run : simpl never.
Local Arguments fmean : simpl never.
Local Arguments fsum : simpl never.

(** *** Series of different lengths *)

Lemma set_masks_short (i : nat) (b : bool) (vs : list (list float64)) :
  Exists (fun v => (length v <= i)%nat) vs ->
  set_masks i b (map ma_asarray vs) = inl IndexError.
Proof.
  induction 1 as [v vs Hv|v vs _ IH]; simpl.
  - unfold set_mask, ma_asarray; simpl. rewrite length_replicate.
    by destruct (Nat.ltb_spec i (length v)); [lia|].
  - rewrite IH. unfold set_mask. by destruct (_ <? _)%nat.
Qed.

Lemma jackknife_loop_short (statistic : jk_statistic) (range : list nat)
    (vs : list (list float64)) (vj : list float64) :
  Exists (fun i => Exists (fun v => (length v <= i)%nat) vs) range ->
  jackknife_loop statistic range (map ma_asarray vs, vj) = inl IndexError.
Proof.
  revert vj. induction range as [|i range IH]; intros vj Hr.
  - by apply Exists_nil in Hr.
  - simpl.
    destruct (decide (Forall (fun v => (i < length v)%nat) vs)) as [Hi|Hi].
    + rewrite jackknife_step_clean by done. simpl. apply IH.
      apply Exists_cons in Hr as [Hr|Hr]; [|done].
      exfalso. apply Exists_exists in Hr as (v & Hv & Hle).
      rewrite Forall_forall in Hi. specialize (Hi v Hv). lia.
    + unfold jackknife_step. rewrite set_masks_short; [done|].
      apply not_Forall_Exists in Hi; [|apply _].
      eapply Exists_impl; [apply Hi|]. simpl. lia.
Qed.

Section JackknifeEdges.
Variable sqrt : float64 -> float64.

(** X12: when a series of the tuple is shorter than the first one,
    [jackknife] raises an [IndexError], whatever the statistic. *)
Theorem jackknife_shorter_series (v0 : list float64)
    (vs : list (list float64)) (statistic : jk_statistic) :
  Exists (fun v => (length v < length v0)%nat) vs ->
  jackknife sqrt (Tuple (v0 :: vs)) statistic = inl IndexError.
Proof.
  intros Hs. unfold jackknife, jackknife_run, jackknife_init. simpl.
  change (ma_asarray v0 :: map ma_asarray vs)
    with (map ma_asarray (v0 :: vs)).
  rewrite jackknife_loop_short; [done|].
  apply Exists_exists in Hs as (v & Hv & Hlt).
  apply Exists_exists. exists (length v). split.
  - apply elem_of_seq. lia.
  - apply Exists_cons_tl, Exists_exists. by exists v.
Qed.

(** X13: with no series [jackknife] raises an [IndexError], and with no
    entry in the (first) series a [ZeroDivisionError], whatever the
    statistic. *)
Theorem jackknife_no_entries (statistic : jk_statistic) :
  jackknife sqrt (Tuple []) statistic = inl IndexError /\
  jackknife sqrt (Single []) statistic = inl ZeroDivisionError /\
  forall vs, jackknife sqrt (Tuple ([] :: vs)) statistic =
             inl ZeroDivisionError.
Proof. repeat split. Qed.

Lemma jackknife_first_series (v0 : list float64) (vs : list (list float64))
    (statistic : jk_statistic) :
  Forall (fun v => (length v0 <= length v)%nat) vs ->
  jackknife_run (Tuple (v0 :: vs)) statistic =
  inr (length v0,
       (map ma_asarray (v0 :: vs),
        map (fun i => statistic (map (exclude i) (v0 :: vs)))
            (seq 0 (length v0)))).
Proof.
  intros Hl. unfold jackknife_run, jackknife_init. simpl.
  change (ma_asarray v0 :: map ma_asarray vs)
    with (map ma_asarray (v0 :: vs)).
  rewrite jackknife_loop_clean; [done|].
  apply Forall_forall. intros i Hi%elem_of_seq.
  constructor; [lia|]. eapply Forall_impl; [apply Hl|]. simpl. lia.
Qed.

(** X14: the first series of a tuple sets the number of replicates: when
    it has an entry and no other series is shorter, [jackknife] returns as
    many replicates as the first series has entries, replicate [i] being the
    statistic with entry [i] of every series excluded; the entries of a
    longer series past that number are never excluded. *)
Theorem jackknife_first_series_counts (v0 : list float64)
    (vs : list (list float64)) (statistic : jk_statistic) :
  (0 < length v0)%nat ->
  Forall (fun v => (length v0 <= length v)%nat) vs ->
  exists (m se : float64) (vj : list float64),
    jackknife sqrt (Tuple (v0 :: vs)) statistic = inr (m, se, vj) /\
    length vj = length v0 /\
    forall i, (i < length v0)%nat ->
      vj !! i = Some (statistic (map (exclude i) (v0 :: vs))).
Proof.
  intros Hpos Hl. unfold jackknife.
  rewrite (jackknife_first_series v0 vs statistic Hl). simpl.
  unfold py_truediv.
  destruct (Z.eqb_spec (Z.of_nat (length v0)) 0) as [E|_]; [lia|]. simpl.
  eexists _, _, _. split; [reflexivity|].
  split; [by rewrite length_map, length_seq|].
  intros i Hi. by rewrite lookup_map, lookup_seq_lt.
Qed.

End JackknifeEdges.

Lemma jackknife_shorter_series_witness :
  jackknife sqrt_id (Tuple [series4; series2]) ratio_of_sums =
  inl IndexError.
Proof.
  apply (jackknife_shorter_series sqrt_id series4 [series2] ratio_of_sums).
  constructor. simpl. lia.
Defined.

Lemma jackknife_first_series_counts_witness :
  exists (m se : float64) (vj : list float64),
    jackknife sqrt_id (Tuple [series4; series6]) ratio_of_sums =
      inr (m, se, vj) /\
    length vj = length series4 /\
    forall i, (i < length series4)%nat ->
      vj !! i = Some (ratio_of_sums (map (exclude i) [series4; series6])).
Proof.
  apply (jackknife_first_series_counts sqrt_id series4 [series6]
           ratio_of_sums).
  - simpl. lia.
  - constructor; [simpl; lia|constructor].
Defined.

(** *** The ratio of sums *)

Lemma fadd_zero_l x : fadd fzero x = x.
Proof.
  destruct x as [q| | |]; try reflexivity.
  unfold fzero, of_Z, of_Q; simpl. change (inject_Z 0) with 0%Q.
  f_equal. ring.
Qed.

Lemma fsum_cons x l : fsum (x :: l) = fadd x (fsum l).
Proof. reflexivity. Qed.

Lemma fsum_insert_zero (i : nat) (v : list float64) :
  (i < length v)%nat -> fsum (<[i := fzero]> v) = fsum (delete i v).
Proof.
  revert i. induction v as [|x v IH]; intros i Hi; simpl in Hi; [lia|].
  destruct i as [|i]; cbn [insert list_insert delete list_delete].
  - by rewrite fsum_cons, fadd_zero_l.
  - rewrite !fsum_cons, IH by lia. done.
Qed.

Lemma ma_sum_exclude (i : nat) (v : list float64) :
  (2 <= length v)%nat -> (i < length v)%nat ->
  ma_sum (exclude i v) = fsum (delete i v).
Proof.
  intros Hn Hi. unfold ma_sum. rewrite ma_count_exclude by done.
  destruct (Nat.eqb_spec (length v - 1) 0) as [E|_]; [lia|].
  by rewrite filled0_exclude_any, fsum_insert_zero.
Qed.

Lemma ratio_of_sums_exclude (i : nat) (x y : list float64) :
  (2 <= length x)%nat -> length y = length x -> (i < length x)%nat ->
  ratio_of_sums (map (exclude i) [x; y]) =
  fdiv (fsum (delete i x)) (fsum (delete i y)).
Proof.
  intros Hn Hy Hi. simpl.
  by rewrite !ma_sum_exclude by (rewrite ?Hy; done).
Qed.

Section JackknifeStatistics.
Variable sqrt : float64 -> float64.

(** X15: with the ratio of sums as statistic, on two series of one length
    [n >= 2], replicate [i] is the sum of the first series without its
    entry [i] over the sum of the second series without its entry [i]. *)
Theorem jackknife_ratio_of_sums (x y : list float64) (n : nat) :
  length x = n -> length y = n -> (2 <= n)%nat ->
  exists (m se : float64) (vj : list float64),
    jackknife sqrt (Tuple [x; y]) ratio_of_sums = inr (m, se, vj) /\
    length vj = n /\
    forall i, (i < n)%nat ->
      vj !! i = Some (fdiv (fsum (delete i x)) (fsum (delete i y))).
Proof.
  intros Hx Hy Hn.
  rewrite (jackknife_equal_length sqrt (Tuple [x; y]) ratio_of_sums n);
    [|split; [done|by repeat constructor]|lia].
  cbv zeta. eexists _, _, _. split; [reflexivity|].
  split; [by rewrite length_map, length_seq|].
  intros i Hi. rewrite lookup_map, lookup_seq_lt by done.
  cbn [fmap option_fmap option_map]. f_equal.
  apply ratio_of_sums_exclude; lia.
Qed.

End JackknifeStatistics.

Lemma jackknife_ratio_of_sums_witness :
  exists (m se : float64) (vj : list float64),
    jackknife sqrt_id (Tuple [series4; series4b]) ratio_of_sums =
      inr (m, se, vj) /\
    length vj = 4%nat /\
    forall i, (i < 4)%nat ->
      vj !! i =
      Some (fdiv (fsum (delete i series4)) (fsum (delete i series4b))).
Proof.
  apply (jackknife_ratio_of_sums sqrt_id series4 series4b 4);
    try reflexivity. lia.
Defined.

End JackknifeMoreFacts.

(** * Further facts about the blockwise wrappers *)

Module BlockwiseMoreFacts.
Import Admixture AdmixtureF3 Spec ListFacts Float64Facts Aux.
Import EstimatorFacts JackknifeFacts BlockwiseFacts JackknifeMoreFacts.
Import Examples.

Local Arguments fmean : simpl never.
Local Arguments fsum : simpl never.
Local Arguments moving_statistic : simpl never.
Local Arguments jackknife : simpl never.
Local Arguments patterson_f3 : simpl never.
Local Arguments patterson_d : simpl never.

Lemma patterson_f3_lengths (acc aca acb : array2) (n : nat) :
  biallelic acc -> biallelic aca -> biallelic acb ->
  shape0 acc = n -> shape0 aca = n -> shape0 acb = n ->
  exists T B : list float64,
    patterson_f3 acc aca acb = inr (T, B) /\
    length T = n /\ length B = n.
Proof.
  intros Hc Ha Hb Hnc Hna Hnb.
  rewrite (patterson_f3_biallelic acc aca acb) by (done || congruence).
  cbv zeta. eexists _, _. split; [reflexivity|].
  rewrite !length_zip_with, !length_map. unfold shape0 in *. lia.
Qed.

Lemma blocks_count (blen n : nat) :
  (0 < blen)%nat -> Nat.divide blen n -> (2 * blen <= n)%nat ->
  (2 <= n / blen)%nat.
Proof.
  intros Hb [c ->] Hn. rewrite Nat.div_mul by lia. nia.
Qed.

Section BlockwiseMore.
Variable sqrt : float64 -> float64.

Lemma jackknife_ratio_result (x y : list float64) (k : nat) :
  length x = k -> length y = k -> (2 <= k)%nat ->
  let vj := map (fun i => fdiv (fsum (delete i x)) (fsum (delete i y)))
                (seq 0 k) in
  jackknife sqrt (Tuple [x; y]) ratio_of_sums =
  inr (fmean vj, spec_se sqrt k (fmean vj) vj, vj).
Proof.
  intros Hx Hy Hk vj.
  rewrite (jackknife_equal_length sqrt (Tuple [x; y]) ratio_of_sums k);
    [|split; [done|by repeat constructor]|lia].
  cbv zeta.
  assert (map (fun i => ratio_of_sums (map (exclude i) (series (Tuple [x; y]))))
              (seq 0 k) = vj) as ->; [|done].
  apply map_ext_in. intros i Hi%in_seq.
  apply ratio_of_sums_exclude; lia.
Qed.

(** X17: on three biallelic arrays of [n] variants and a block length
    [blen > 0] that divides [n] at least twice, [blockwise_patterson_f3]
    without normalisation returns the NaN-aware mean of [T] over each block
    as [vb], as many replicates as blocks, replicate [k] being [np.mean] of
    [vb] with block [k] excluded, the mean of the replicates as [m], and
    [z = m / se]. *)
Theorem blockwise_patterson_f3_unnormed (acc aca acb : array2)
    (blen n : nat) :
  biallelic acc -> biallelic aca -> biallelic acb ->
  shape0 acc = n -> shape0 aca = n -> shape0 acb = n ->
  (0 < blen)%nat -> Nat.divide blen n -> (2 * blen <= n)%nat ->
  exists (T B : list float64) (m se z : float64) (vb vj : list float64),
    patterson_f3 acc aca acb = inr (T, B) /\
    blockwise_patterson_f3 sqrt acc aca acb blen false =
      inr (m, se, z, vb, vj) /\
    length vb = (n / blen)%nat /\ length vj = (n / blen)%nat /\
    (forall k, (k < n / blen)%nat ->
       vb !! k = Some (nanmean (block blen k T)) /\
       vj !! k = Some (np_mean [exclude k vb])) /\
    m = fmean vj /\ se = spec_se sqrt (n / blen) m vj /\ z = fdiv m se.
Proof.
  intros Hc Ha Hb Hnc Hna Hnb Hblen Hdiv H2.
  destruct (patterson_f3_lengths acc aca acb n) as (T & B & Hf3 & HT & HB);
    try done.
  pose proof (blocks_count blen n Hblen Hdiv H2) as Hk.
  exists T, B. unfold blockwise_patterson_f3. rewrite Hf3. simpl.
  set (vb := moving_statistic T nanmean blen).
  assert (length vb = (n / blen)%nat) as Hvb
    by (unfold vb; by rewrite length_moving_statistic, HT).
  rewrite (jackknife_equal_length sqrt (Single vb) np_mean (n / blen));
    [|split; [done|by repeat constructor]|lia].
  simpl. eexists _, _, _, _, _. split; [reflexivity|].
  split; [reflexivity|]. split; [done|].
  split; [by rewrite length_map, length_seq|]. split; [|done].
  intros k Hk'. split.
  - unfold vb. apply lookup_moving_statistic. by rewrite HT.
  - by rewrite lookup_map, lookup_seq_lt.
Qed.

(** X18: with normalisation, [vb] is the NaN-aware sum of [T] over the
    NaN-aware sum of [B] for each block, replicate [i] is the sum of the
    block sums of [T] without block [i] over that of [B], [m] is the mean
    of the replicates and [z = m / se]. *)
Theorem blockwise_patterson_f3_normed (acc aca acb : array2)
    (blen n : nat) :
  biallelic acc -> biallelic aca -> biallelic acb ->
  shape0 acc = n -> shape0 aca = n -> shape0 acb = n ->
  (0 < blen)%nat -> Nat.divide blen n -> (2 * blen <= n)%nat ->
  exists (T B : list float64) (m se z : float64) (vb vj : list float64),
    patterson_f3 acc aca acb = inr (T, B) /\
    blockwise_patterson_f3 sqrt acc aca acb blen true =
      inr (m, se, z, vb, vj) /\
    length vb = (n / blen)%nat /\ length vj = (n / blen)%nat /\
    (forall k, (k < n / blen)%nat ->
       vb !! k = Some (fdiv (nansum (block blen k T))
                            (nansum (block blen k B))) /\
       vj !! k =
       Some (fdiv (fsum (delete k (moving_statistic T nansum blen)))
                  (fsum (delete k (moving_statistic B nansum blen))))) /\
    m = fmean vj /\ se = spec_se sqrt (n / blen) m vj /\ z = fdiv m se.
Proof.
  intros Hc Ha Hb Hnc Hna Hnb Hblen Hdiv H2.
  destruct (patterson_f3_lengths acc aca acb n) as (T & B & Hf3 & HT & HB);
    try done.
  pose proof (blocks_count blen n Hblen Hdiv H2) as Hk.
  exists T, B. unfold blockwise_patterson_f3. rewrite Hf3. simpl.
  rewrite (jackknife_ratio_result _ _ (n / blen))
    by (rewrite ?length_moving_statistic, ?HT, ?HB; done).
  simpl. eexists _, _, _, _, _. split; [reflexivity|].
  split; [reflexivity|].
  split; [rewrite length_zip_with, !length_moving_statistic, HT, HB; lia|].
  split; [by rewrite length_map, length_seq|].
  split; [|done].
  intros k Hk'. split.
  - rewrite lookup_zip_with, !lookup_moving_statistic
      by (rewrite ?HT, ?HB; done).
    reflexivity.
  - by rewrite lookup_map, lookup_seq_lt.
Qed.

(** X19: on four biallelic arrays of [n] variants and a block length
    [blen > 0] that divides [n] at least twice, replicate [i] of
    [blockwise_patterson_d] is the sum of the block sums of the numerator
    without block [i] over that of the denominator, [m] is the mean of the
    replicates, [se] their jackknife standard error and [z = m / se]. *)
Theorem blockwise_patterson_d_replicates (aca acb acc acd : array2)
    (blen n : nat) :
  biallelic aca -> biallelic acb -> biallelic acc -> biallelic acd ->
  shape0 aca = n -> shape0 acb = n -> shape0 acc = n -> shape0 acd = n ->
  (0 < blen)%nat -> Nat.divide blen n -> (2 * blen <= n)%nat ->
  exists (num den : list float64) (m se z : float64) (vb vj : list float64),
    patterson_d aca acb acc acd = inr (num, den) /\
    blockwise_patterson_d sqrt aca acb acc acd blen =
      inr (m, se, z, vb, vj) /\
    (forall k, (k < n / blen)%nat ->
       vj !! k =
       Some (fdiv (fsum (delete k (moving_statistic num nansum blen)))
                  (fsum (delete k (moving_statistic den nansum blen))))) /\
    m = fmean vj /\ se = spec_se sqrt (n / blen) m vj /\ z = fdiv m se.
Proof.
  intros Ha Hb Hc Hd Hna Hnb Hnc Hnd Hblen Hdiv H2.
  destruct (patterson_d_lengths aca acb acc acd n)
    as (num & den & Hpd & Hnum & Hden); try done.
  pose proof (blocks_count blen n Hblen Hdiv H2) as Hk.
  exists num, den. unfold blockwise_patterson_d. rewrite Hpd. simpl.
  rewrite (jackknife_ratio_result _ _ (n / blen))
    by (rewrite ?length_moving_statistic, ?Hnum, ?Hden; done).
  simpl. eexists _, _, _, _, _. split; [reflexivity|].
  split; [reflexivity|]. split; [|done].
  intros k Hk'. by rewrite lookup_map, lookup_seq_lt.
Qed.

End BlockwiseMore.

Ltac blocks_example :=
  try reflexivity; try lia;
  try (split; [reflexivity|]; repeat constructor);
  try (exists 2%nat; reflexivity).

Lemma blockwise_patterson_f3_unnormed_witness :
  exists (T B : list float64) (m se z : float64) (vb vj : list float64),
    patterson_f3 blocks_c blocks_a blocks_b = inr (T, B) /\
    blockwise_patterson_f3 sqrt_id blocks_c blocks_a blocks_b 2 false =
      inr (m, se, z, vb, vj) /\
    length vb = (4 / 2)%nat /\ length vj = (4 / 2)%nat /\
    (forall k, (k < 4 / 2)%nat ->
       vb !! k = Some (nanmean (block 2 k T)) /\
       vj !! k = Some (np_mean [exclude k vb])) /\
    m = fmean vj /\ se = spec_se sqrt_id (4 / 2) m vj /\ z = fdiv m se.
Proof.
  apply (blockwise_patterson_f3_unnormed sqrt_id
           blocks_c blocks_a blocks_b 2 4); blocks_example.
Defined.

Lemma blockwise_patterson_f3_normed_witness :
  exists (T B : list float64) (m se z : float64) (vb vj : list float64),
    patterson_f3 blocks_c blocks_a blocks_b = inr (T, B) /\
    blockwise_patterson_f3 sqrt_id blocks_c blocks_a blocks_b 2 true =
      inr (m, se, z, vb, vj) /\
    length vb = (4 / 2)%nat /\ length vj = (4 / 2)%nat /\
    (forall k, (k < 4 / 2)%nat ->
       vb !! k = Some (fdiv (nansum (block 2 k T))
                            (nansum (block 2 k B))) /\
       vj !! k =
       Some (fdiv (fsum (delete k (moving_statistic T nansum 2)))
                  (fsum (delete k (moving_statistic B nansum 2))))) /\
    m = fmean vj /\ se = spec_se sqrt_id (4 / 2) m vj /\ z = fdiv m se.
Proof.
  apply (blockwise_patterson_f3_normed sqrt_id
           blocks_c blocks_a blocks_b 2 4); blocks_example.
Defined.

Lemma blockwise_patterson_d_replicates_witness :
  exists (num den : list float64) (m se z : float64) (vb vj : list float64),
    patterson_d blocks_a blocks_b blocks_c blocks_d = inr (num, den) /\
    blockwise_patterson_d sqrt_id blocks_a blocks_b blocks_c blocks_d 2 =
      inr (m, se, z, vb, vj) /\
    (forall k, (k < 4 / 2)%nat ->
       vj !! k =
       Some (fdiv (fsum (delete k (moving_statistic num nansum 2)))
                  (fsum (delete k (moving_statistic den nansum 2))))) /\
    m = fmean vj /\ se = spec_se sqrt_id (4 / 2) m vj /\ z = fdiv m se.
Proof.
  apply (blockwise_patterson_d_replicates sqrt_id
           blocks_a blocks_b blocks_c blocks_d 2 4); blocks_example.
Defined.

End BlockwiseMoreFacts.
